(** * Progress coordination and chart reconciliation of the OptiGap frontend

  A shallow embedding of
  - [services/progressTracker.ts]  (class [ProgressTracker], the poller),
  - [services/reportGenerator.ts]  ([generateReportStreamWithProgress] and
    its nested [startFallbackProgress], the coordinator and the simulator),
  - [components/ReportComponent.tsx] (the chart merge inside
    [handleSendMessage]),
  followed by the properties the specification states about them.

  Conventions of the embedding:
  - JavaScript numbers are exact rationals ([Q]); [Math.round] is
    [floor (x + 1/2)].  Doubles are idealised: no rounding error.
  - strings are Rocq strings of 8-bit characters; [toLowerCase] and the
    regular expression class [\s] are modelled on ASCII.
  - the browser event loop is a table of live timers; a timer callback
    is a closure value that carries its captured [let] variables.  There
    is no clock: every order of events that the table allows is a run.
  - [Date.now()] and [Math.random()] are inputs supplied by the
    environment.
  - the functions the caller passes in return normally. *)

From Stdlib Require Import ZArith QArith Qround String Ascii List Bool Lia.
From stdpp Require Import base option list gmap strings.

Local Open Scope Z_scope.

(** ** JavaScript string helpers *)

Module Js.

(** [c.toLowerCase()] on one ASCII character. *)
Definition lower_char (c : ascii) : ascii :=
  let n := N_of_ascii c in
  if ((65 <=? n) && (n <=? 90))%N then ascii_of_N (n + 32) else c.

(** [s.toLowerCase()] *)
Fixpoint toLowerCase (s : string) : string :=
  match s with
  | EmptyString => EmptyString
  | String c s' => String (lower_char c) (toLowerCase s')
  end.

(** The class [\s]: tab, line feed, vertical tab, form feed, carriage
    return, space. *)
Definition is_space (c : ascii) : bool :=
  let n := N_of_ascii c in
  (((9 <=? n) && (n <=? 13)) || (n =? 32))%N.

(** [s.replace(/\s+/g, r)]: every maximal run of white space becomes one
    [r].  [in_run] tells that the previous character was white space. *)
Fixpoint replace_spaces_from (r : ascii) (in_run : bool) (s : string) : string :=
  match s with
  | EmptyString => EmptyString
  | String c s' =>
      if is_space c
      then (if in_run then replace_spaces_from r true s'
            else String r (replace_spaces_from r true s'))
      else String c (replace_spaces_from r false s')
  end.

Definition replace_spaces (r : ascii) (s : string) : string :=
  replace_spaces_from r false s.

(** [Math.round]: to the nearest integer, halves towards +infinity. *)
Definition round (x : Q) : Z := Qfloor (x + (1 # 2)).

(** [arr.findIndex(p)]: the first index whose element satisfies [p], or
    [-1]. *)
Fixpoint findIndex_from {A} (p : A -> bool) (l : list A) (i : Z) : Z :=
  match l with
  | [] => -1
  | x :: l' => if p x then i else findIndex_from p l' (i + 1)
  end.

Definition findIndex {A} (p : A -> bool) (l : list A) : Z :=
  findIndex_from p l 0.

End Js.

(** ** ChartReconciler: the merge in [handleSendMessage] *)

Module Reconciler.

Inductive ChartType :=
| line | bar | pie | doughnut | area | scatter
| horizontalBar | polarArea | radar.

Definition type_name (t : ChartType) : string :=
  match t with
  | line => "line" | bar => "bar" | pie => "pie"
  | doughnut => "doughnut" | area => "area" | scatter => "scatter"
  | horizontalBar => "horizontalBar" | polarArea => "polarArea"
  | radar => "radar"
  end.

Definition type_eqb (a b : ChartType) : bool :=
  String.eqb (type_name a) (type_name b).

(** [interface ChartDataFromBackend].  A colour is [string | string[]]. *)
Record ChartDataFromBackend := mkChart {
  title : string;
  type : ChartType;
  labels : list string;
  data : list Q;
  description : option string;
  backgroundColor : option (string + list string);
  borderColor : option (string + list string);
  insights : option (list string);
  id : option string;
  createdAt : option Z;
  updatedAt : option Z
}.

(** [`${c.title}-${c.type}`.toLowerCase().replace(/\s+/g, '-')] *)
Definition chartId (c : ChartDataFromBackend) : string :=
  Js.replace_spaces "-"%char
    (Js.toLowerCase (title c ++ "-" ++ type_name (type c))%string).

Definition list_string_eqb (a b : list string) : bool :=
  bool_decide (a = b).

(** The three tests of the [findIndex] callback, in the order of the
    source.  [JSON.stringify] is injective on arrays of strings, so the
    comparison of the two serialisations is the comparison of the arrays. *)
Definition sameId (newChart chart : ChartDataFromBackend) : bool :=
  String.eqb (chartId chart) (chartId newChart).

Definition sameTitle (newChart chart : ChartDataFromBackend) : bool :=
  String.eqb (Js.toLowerCase (title chart)) (Js.toLowerCase (title newChart)).

Definition similarStructure (newChart chart : ChartDataFromBackend) : bool :=
  if type_eqb (type chart) (type newChart) then
    let labelsMatch := list_string_eqb (labels chart) (labels newChart) in
    let similarDataLength :=
      Nat.eqb (List.length (data chart)) (List.length (data newChart)) in
    if labelsMatch || similarDataLength then true else false
  else false.

(** The callback handed to [updatedCharts.findIndex]. *)
Definition matches (newChart chart : ChartDataFromBackend) : bool :=
  if sameId newChart chart then true
  else if sameTitle newChart chart then true
  else if similarStructure newChart chart then true
  else false.

(** [{ ...newChart, id: chartId, updatedAt: Date.now() }] *)
Definition replacement (newChart : ChartDataFromBackend) (now : Z)
  : ChartDataFromBackend :=
  {| title := title newChart; type := type newChart;
     labels := labels newChart; data := data newChart;
     description := description newChart;
     backgroundColor := backgroundColor newChart;
     borderColor := borderColor newChart;
     insights := insights newChart;
     id := Some (chartId newChart);
     createdAt := createdAt newChart;
     updatedAt := Some now |}.

(** [{ ...newChart, id: chartId, createdAt: Date.now() }] *)
Definition addition (newChart : ChartDataFromBackend) (now : Z)
  : ChartDataFromBackend :=
  {| title := title newChart; type := type newChart;
     labels := labels newChart; data := data newChart;
     description := description newChart;
     backgroundColor := backgroundColor newChart;
     borderColor := borderColor newChart;
     insights := insights newChart;
     id := Some (chartId newChart);
     createdAt := Some now;
     updatedAt := updatedAt newChart |}.

(** The variables the [forEach] body writes: the working copy and the
    two counters. *)
Record MergeState := mkMerge {
  updatedCharts : list ChartDataFromBackend;
  chartsUpdated : nat;
  chartsAdded : nat
}.

(** One iteration of [response.charts.forEach]; [now] is what
    [Date.now()] returns in it. *)
Definition forEach_body (st : MergeState) (item : ChartDataFromBackend * Z)
  : MergeState :=
  let '(newChart, now) := item in
  let existingIndex := Js.findIndex (matches newChart) (updatedCharts st) in
  if 0 <=? existingIndex then
    {| updatedCharts :=
         <[Z.to_nat existingIndex := replacement newChart now]> (updatedCharts st);
       chartsUpdated := S (chartsUpdated st);
       chartsAdded := chartsAdded st |}
  else
    {| updatedCharts := updatedCharts st ++ [addition newChart now];
       chartsUpdated := chartsUpdated st;
       chartsAdded := S (chartsAdded st) |}.

(** The updater passed to [setDynamicCharts], with the counters declared
    just before it.  Each candidate is paired with the clock reading of
    its iteration. *)
Definition merge (prev : list ChartDataFromBackend)
    (charts : list (ChartDataFromBackend * Z)) : MergeState :=
  fold_left forEach_body charts
    {| updatedCharts := prev; chartsUpdated := 0; chartsAdded := 0 |}.

(** A chart as the assistant sends it: only the mandatory fields. *)
Definition chart (t : string) (ty : ChartType) (ls : list string)
    (ds : list Q) : ChartDataFromBackend :=
  mkChart t ty ls ds None None None None None None None.

End Reconciler.

(** ** PhaseModel: [ANALYSIS_PHASES] *)

Module Phases.

Record ProgressPhase := mkPhase {
  name : string;
  description : string;
  estimatedDuration : Z (* in seconds *)
}.

Definition ANALYSIS_PHASES : list ProgressPhase :=
  [ mkPhase "Initialization" "Setting up analysis environment" 5;
    mkPhase "Data Collection" "Gathering business information" 15;
    mkPhase "Market Research" "Analyzing market trends and competitors" 30;
    mkPhase "Opportunity Analysis" "Identifying growth opportunities" 25;
    mkPhase "Report Generation" "Creating comprehensive report" 20;
    mkPhase "Finalization" "Preparing final analysis" 5 ].

End Phases.

(** ** The event loop: the table of live timers *)

Module Loop.

(** Browsers number their timers from 1, so a stored handle is truthy. *)
Definition handle := positive.

(** The three functions this code hands to [setInterval] and
    [setTimeout].  A closure carries the [let] variables it captured and
    assigns to. *)
Inductive Closure :=
| PollerTick
    (* [() => { this.fetchProgress(); }] in [startTracking] *)
| FallbackTick (currentProgress : Q) (phaseIndex : nat)
    (* the arrow function in [startFallbackProgress] *)
| AutoFallback.
    (* the arrow function of the 5000 ms [setTimeout] *)

Record Timer := mkTimer { callback : Closure; repeats : bool }.

Record t := mkLoop {
  timers : gmap handle Timer;
  next_handle : handle
}.

Definition empty : t := {| timers := ∅; next_handle := 1%positive |}.

Definition schedule (tm : Timer) (l : t) : handle * t :=
  (next_handle l,
   {| timers := <[next_handle l := tm]> (timers l);
      next_handle := Pos.succ (next_handle l) |}).

Definition setInterval (c : Closure) (l : t) : handle * t :=
  schedule (mkTimer c true) l.

Definition setTimeout (c : Closure) (l : t) : handle * t :=
  schedule (mkTimer c false) l.

Definition clearInterval (h : handle) (l : t) : t :=
  {| timers := delete h (timers l); next_handle := next_handle l |}.

(** The closure of a repeating timer keeps the new values of its
    variables for its next run. *)
Definition save (h : handle) (c : Closure) (l : t) : t :=
  {| timers := alter (fun tm => mkTimer c (repeats tm)) h (timers l);
     next_handle := next_handle l |}.

End Loop.

(** ** ProgressPoller: class [ProgressTracker] *)

Module Poller.
Import Loop.

(** [interface ProgressUpdate], the fields the coordinator's decisions
    read ([sessionId], [currentTask] and the two times are carried
    through unchanged and are left out). *)
Record ProgressUpdate := mkUpdate {
  phase : string;
  percentage : Z;
  currentPhase : Z
}.

(** The body the progress endpoint answers with: [data.progress]. *)
Record ProgressPayload := mkProgress {
  current_phase : option string;
  reported_percentage : option Q
}.

(** [response.data] *)
Record Payload := mkPayload {
  status : option string;
  progress : option ProgressPayload
}.

(** How the awaited [axios.get] settles: it rejects (network failure,
    error status) or resolves with a body, [None] for an empty one. *)
Inductive Response :=
| Rejected
| Resolved (data : option Payload).

(** The private fields; a callback field is [true] once a function is
    stored in it. *)
Record ProgressTracker := mkTracker {
  progressCallback : bool;
  errorCallback : bool;
  intervalId : option handle;
  isTracking : bool
}.

(** [new ProgressTracker(sessionId)] *)
Definition new : ProgressTracker := mkTracker false false None false.

(** What the tracker calls: the observable behaviour of the poller. *)
Inductive Call :=
| CallProgress (u : ProgressUpdate)
| CallError.

(** [fetchProgress] up to its [await]: [true] when the request is sent. *)
Definition fetchProgress_sends (t : ProgressTracker) : bool :=
  if negb (isTracking t) then false else true.

Definition stopTracking (t : ProgressTracker) (l : Loop.t)
  : ProgressTracker * Loop.t :=
  let t1 := mkTracker (progressCallback t) (errorCallback t) (intervalId t) false in
  match intervalId t1 with
  | Some h =>
      (mkTracker (progressCallback t1) (errorCallback t1) None false,
       clearInterval h l)
  | None => (t1, l)
  end.

(** [startTracking] up to the [await] of its initial [fetchProgress]: the
    new tracker, the loop with the 2000 ms interval, and whether the
    initial request was sent. *)
Definition startTracking (hasError : bool) (t : ProgressTracker) (l : Loop.t)
  : ProgressTracker * Loop.t * bool :=
  let '(h, l1) := setInterval PollerTick l in
  let t1 := mkTracker true hasError (Some h) true in
  (t1, l1, fetchProgress_sends t1).

(** [x || d] on an optional string: absent and empty are falsy. *)
Definition or_string (x : option string) (d : string) : string :=
  match x with
  | Some s => if String.eqb s "" then d else s
  | None => d
  end.

(** [x || 0] on an optional number. *)
Definition or_zero (x : option Q) : Q :=
  match x with Some q => q | None => 0%Q end.

(** [getCurrentPhaseIndex]; [phaseName?.toLowerCase()] of an absent name
    is [undefined], which equals no phase name. *)
Definition getCurrentPhaseIndex (phaseName : option string) : Z :=
  let index :=
    Js.findIndex
      (fun p => match phaseName with
                | Some n => String.eqb (Js.toLowerCase (Phases.name p))
                                       (Js.toLowerCase n)
                | None => false
                end)
      Phases.ANALYSIS_PHASES in
  if 0 <=? index then index + 1 else 1.

(** [fetchProgress] from the point where the awaited request settles.
    Reading [data.status] of an empty body throws, and the [catch]
    treats that like a rejected request. *)
Definition fetchProgress_resume (r : Response) (t : ProgressTracker)
    (l : Loop.t) : ProgressTracker * Loop.t * list Call :=
  let caught := (t, l, if errorCallback t then [CallError] else []) in
  match r with
  | Rejected => caught
  | Resolved None => caught
  | Resolved (Some data) =>
      match status data, progress data with
      | Some st, Some pr =>
          if String.eqb st "success" then
            let progressUpdate :=
              {| phase := or_string (current_phase pr) "Unknown";
                 percentage := Js.round (or_zero (reported_percentage pr));
                 currentPhase := getCurrentPhaseIndex (current_phase pr) |} in
            let calls :=
              if progressCallback t then [CallProgress progressUpdate] else [] in
            if 100 <=? percentage progressUpdate then
              let '(t1, l1) := stopTracking t l in (t1, l1, calls)
            else (t, l, calls)
          else (t, l, [])
      | _, _ => (t, l, [])
      end
  end.

End Poller.

(** ** ProgressCoordinator: [generateReportStreamWithProgress] *)

Module Coordinator.
Import Loop Poller.

(** Which code path made a call to [onProgress].  The caller does not see
    this component; it labels the log. *)
Inductive Source :=
| Connected
| Polled
| Simulated (h : handle).

(** A call of one of the caller's three callbacks, with the fields of
    the event that the properties below speak about: [phase] and
    [progress] of a [StreamProgressEvent].  [onError] is called in the
    [catch] block only. *)
Inductive Callback :=
| OnProgress (src : Source) (phase : string) (progress : Z)
| OnComplete
| OnError.

(** The three callback parameters are optional: [true] when passed. *)
Record Callbacks := mkCallbacks {
  onProgress : bool;
  onComplete : bool;
  onError : bool
}.

(** The variables of one call of [generateReportStreamWithProgress], the
    event loop, the number of progress requests awaiting their response,
    and the callbacks made so far, oldest first. *)
Record World := mkWorld {
  cbs : Callbacks;
  progressTracker : option ProgressTracker;
  fallbackInterval : option handle;
  loop : Loop.t;
  pending : nat;
  log : list Callback
}.

Definition set_loop (l : Loop.t) (w : World) : World :=
  mkWorld (cbs w) (progressTracker w) (fallbackInterval w) l (pending w) (log w).

Definition emit (c : Callback) (w : World) : World :=
  mkWorld (cbs w) (progressTracker w) (fallbackInterval w) (loop w)
          (pending w) (log w ++ [c]).

(** [if (onProgress) { onProgress({...}) }] *)
Definition emit_progress (src : Source) (ph : string) (p : Z) (w : World) : World :=
  if onProgress (cbs w) then emit (OnProgress src ph p) w else w.

(** [phase.toLowerCase().replace(/\s+/g, '_')] *)
Definition step_name (ph : string) : string :=
  Js.replace_spaces "_"%char (Js.toLowerCase ph).

(** The first argument of [progressTracker.startTracking]. *)
Definition progressCallback (progress : ProgressUpdate) (w : World) : World :=
  let w1 := emit_progress Polled (step_name (phase progress))
                          (percentage progress) w in
  if (100 <=? percentage progress) && onComplete (cbs w1)
  then emit OnComplete w1 else w1.

(** [startFallbackProgress]: two fresh variables and a 2000 ms interval
    whose handle goes to the shared [fallbackInterval]. *)
Definition startFallbackProgress (w : World) : World :=
  let '(h, l) := setInterval (FallbackTick 0 0) (loop w) in
  mkWorld (cbs w) (progressTracker w) (Some h) l (pending w) (log w).

(** The second argument of [progressTracker.startTracking]. *)
Definition errorCallback (w : World) : World := startFallbackProgress w.

(** [if (fallbackInterval) clearInterval(fallbackInterval)] *)
Definition clear_fallback (w : World) : World :=
  match fallbackInterval w with
  | Some h => set_loop (clearInterval h (loop w)) w
  | None => w
  end.

(** [100 / ANALYSIS_PHASES.length] *)
Definition phase_share : Q :=
  100 / inject_Z (Z.of_nat (List.length Phases.ANALYSIS_PHASES)).

(** One run of the interval callback of [startFallbackProgress].  [self]
    is the handle of the interval that fires, [currentProgress] and
    [phaseIndex] are the closure's variables, [random] is the value of
    [Math.random()]. *)
Definition fallbackTick (self : handle) (currentProgress : Q)
    (phaseIndex : nat) (random : Q) (w : World) : World :=
  match Phases.ANALYSIS_PHASES !! phaseIndex with
  | None => clear_fallback w
  | Some phase =>
      let currentProgress' := (currentProgress + (random * 3 + 1))%Q in
      let w1 :=
        emit_progress (Simulated self) (step_name (Phases.name phase))
          (Z.min (Js.round currentProgress') 100) w in
      let phaseIndex' :=
        if Qle_bool (inject_Z (Z.of_nat (phaseIndex + 1)) * phase_share)
                    currentProgress'
        then S phaseIndex else phaseIndex in
      let w2 :=
        set_loop (save self (FallbackTick currentProgress' phaseIndex') (loop w1)) w1 in
      if (List.length Phases.ANALYSIS_PHASES <=? phaseIndex')%nat
         || Qle_bool 100 currentProgress'
      then
        let w3 := clear_fallback w2 in
        if onComplete (cbs w3) then emit OnComplete w3 else w3
      else w2
  end.

(** The callback of the 5000 ms timeout; the tracker variable holds an
    object, which is truthy. *)
Definition autoFallback (w : World) : World :=
  let truthy := bool_decide (is_Some (progressTracker w)) in
  if negb truthy || truthy then startFallbackProgress w else w.

(** The timer callback [() => { this.fetchProgress(); }]. *)
Definition pollerTick (w : World) : World :=
  match progressTracker w with
  | Some t =>
      if fetchProgress_sends t
      then mkWorld (cbs w) (progressTracker w) (fallbackInterval w) (loop w)
                   (S (pending w)) (log w)
      else w
  | None => w
  end.

(** The tracker calls the functions it was given. *)
Definition dispatch (c : Call) (w : World) : World :=
  match c with
  | CallProgress u => progressCallback u w
  | CallError => errorCallback w
  end.

(** The body of [generateReportStreamWithProgress] up to its return: the
    "connected" event, the tracker and its first request, the timeout.
    The [fetch] that starts the analysis only logs its outcome.  Nothing
    in the [try] block throws for string arguments, so the [catch] block
    does not run. *)
Definition generateReportStreamWithProgress (c : Callbacks) : World :=
  let w0 := mkWorld c None None Loop.empty 0 [] in
  let w1 := emit_progress Connected "initialization" 0 w0 in
  let '(t, l, sent) := startTracking true Poller.new (loop w1) in
  let w2 := mkWorld (cbs w1) (Some t) (fallbackInterval w1) l
                    (if sent then S (pending w1) else pending w1) (log w1) in
  let '(_, l') := setTimeout AutoFallback (loop w2) in
  set_loop l' w2.

(** *** The environment's moves *)

Inductive Event :=
| Fire (h : handle) (random : Q)
    (* timer [h] fires; [random] is what [Math.random()] returns if the
       callback asks *)
| Settle (r : Response).
    (* one awaited progress request settles *)

Definition run_callback (h : handle) (c : Closure) (random : Q) (w : World)
  : World :=
  match c with
  | PollerTick => pollerTick w
  | FallbackTick cp ph => fallbackTick h cp ph random w
  | AutoFallback => autoFallback w
  end.

(** [Math.random()] is in [0, 1). *)
Definition is_random (u : Q) : bool := Qle_bool 0 u && negb (Qle_bool 1 u).

(** One turn of the event loop; [None] when the event cannot happen (the
    timer is not live, no request is awaiting). *)
Definition step (ev : Event) (w : World) : option World :=
  match ev with
  | Fire h random =>
      if is_random random then
        match timers (loop w) !! h with
        | Some tm =>
            let w1 := if repeats tm then w
                      else set_loop (clearInterval h (loop w)) w in
            Some (run_callback h (callback tm) random w1)
        | None => None
        end
      else None
  | Settle r =>
      match pending w, progressTracker w with
      | S n, Some t =>
          let '(t', l', calls) := fetchProgress_resume r t (loop w) in
          let w1 := mkWorld (cbs w) (Some t') (fallbackInterval w) l' n (log w) in
          Some (fold_left (fun acc c => dispatch c acc) calls w1)
      | _, _ => None
      end
  end.

Fixpoint run (evs : list Event) (w : World) : option World :=
  match evs with
  | [] => Some w
  | ev :: evs' =>
      match step ev w with
      | Some w' => run evs' w'
      | None => None
      end
  end.

(** *** Observations on a world and on its log *)

Definition poller_timer (w : World) (h : handle) : Prop :=
  timers (loop w) !! h = Some (mkTimer PollerTick true).

Definition simulator_timer (w : World) (h : handle) : Prop :=
  exists cp ph, timers (loop w) !! h = Some (mkTimer (FallbackTick cp ph) true).

Definition grace_timer (w : World) (h : handle) : Prop :=
  timers (loop w) !! h = Some (mkTimer AutoFallback false).

Definition is_complete (c : Callback) : bool :=
  match c with OnComplete => true | _ => false end.

Definition completions (l : list Callback) : nat :=
  List.length (List.filter is_complete l).

(** The percentages handed to [onProgress], oldest first. *)
Fixpoint percentages (l : list Callback) : list Z :=
  match l with
  | [] => []
  | OnProgress _ _ p :: l' => p :: percentages l'
  | _ :: l' => percentages l'
  end.

(** The percentages that the simulator with interval [h] handed over. *)
Fixpoint simulated (h : handle) (l : list Callback) : list Z :=
  match l with
  | [] => []
  | OnProgress (Simulated h') _ p :: l' =>
      if bool_decide (h' = h) then p :: simulated h l' else simulated h l'
  | _ :: l' => simulated h l'
  end.

Fixpoint nondecreasing (l : list Z) : bool :=
  match l with
  | a :: ((b :: _) as l') => (a <=? b) && nondecreasing l'
  | _ => true
  end.

Definition all_callbacks : Callbacks := mkCallbacks true true true.

End Coordinator.

(** ** The specification's statements about the merge, as it words them *)

Module MergeStatements.
Import Reconciler.






(** *** Sample charts: those of the specification's examples and three
    neighbours *)

Definition revenue_old : ChartDataFromBackend :=
  chart "Revenue by Quarter" bar ["Q1"; "Q2"]%string [10; 20]%Q.
Definition revenue_new : ChartDataFromBackend :=
  chart "Revenue by Quarter" bar ["Q1"; "Q2"]%string [15; 25]%Q.
Definition new_insight : ChartDataFromBackend :=
  chart "New Insight" pie ["A"; "B"]%string [1; 2]%Q.
Definition growth : ChartDataFromBackend :=
  chart "Growth" line ["A"; "B"; "C"]%string [1; 2; 3]%Q.
Definition growth_rate : ChartDataFromBackend :=
  chart "Growth Rate" bar ["A"; "B"; "C"]%string [4; 5; 6]%Q.
(** A bar chart on another subject that happens to have two values. *)
Definition costs : ChartDataFromBackend :=
  chart "Costs" bar ["Staff"; "Rent"]%string [7; 8]%Q.

End MergeStatements.

(** ** The specification's statements about progress reporting, as it words
     them *)

Module ProgressStatements.
Import Loop Poller Coordinator.

(** *** The poller *)

(** A response that carries no usable progress: an empty body, a status
    other than ["success"], or no [progress] object. *)
Definition lacks_progress (r : Response) : Prop :=
  r = Resolved None
  \/ exists d, r = Resolved (Some d)
               /\ (status d <> Some "success"%string \/ progress d = None).

(** "Whenever the endpoint responds with an absent or malformed progress
    payload, the Poller invokes onError." *)
Definition malformed_payload_raises_onError : Prop :=
  forall r t l,
    Poller.errorCallback t = true ->
    lacks_progress r ->
    snd (fetchProgress_resume r t l) = [CallError].

(** "After stop() returns, no further onUpdate or onError callback is
    ever invoked, including from a poll request already in flight." *)
Definition silent_after_stop : Prop :=
  forall r t l,
    snd (fetchProgress_resume r (fst (stopTracking t l)) (snd (stopTracking t l)))
    = [].

(** Sample responses. *)
Definition reports (ph : string) (p : Q) : Response :=
  Resolved (Some (mkPayload (Some "success"%string)
                            (Some (mkProgress (Some ph) (Some p))))).

Definition failed_status : Response :=
  Resolved (Some (mkPayload (Some "error"%string) None)).

(** A tracker that was started on an empty loop, and the same stopped at
    once, its first request still awaiting the response. *)
Definition started : ProgressTracker * Loop.t :=
  fst (startTracking true Poller.new Loop.empty).

Definition started_then_stopped : ProgressTracker * Loop.t :=
  stopTracking (fst started) (snd started).

(** *** The coordinator *)

(** The worlds a session can be in. *)
Definition reachable (c : Callbacks) (w : World) : Prop :=
  exists evs, run evs (generateReportStreamWithProgress c) = Some w.

(** "At every point in time, at most one of the Poller's periodic timer
    and the Simulator's periodic timer exists." *)
Definition single_active_source : Prop :=
  forall c w, reachable c w ->
    ~ exists h1 h2, poller_timer w h1 /\ simulator_timer w h2.

(** "The sequence of percentage values delivered to onProgress is
    monotonically non-decreasing." *)
Definition percentages_never_decrease : Prop :=
  forall c w, reachable c w -> nondecreasing (percentages (log w)) = true.

Definition hundreds (l : list Callback) : nat :=
  List.length (List.filter (Z.eqb 100) (percentages l)).

(** "Exactly one terminal emission has percentage == 100 and at most one
    onComplete callback is ever invoked": at no point of a session are
    there two of either. *)
Definition single_terminal_event : Prop :=
  forall c w, reachable c w ->
    (hundreds (log w) <= 1)%nat /\ (completions (log w) <= 1)%nat.

(** The request threw or was rejected: the [catch] of [fetchProgress]
    runs. *)
Definition is_error (r : Response) : bool :=
  match r with
  | Rejected | Resolved None => true
  | Resolved (Some _) => false
  end.

(** The response makes the poller hand over a progress update. *)
Definition is_update (r : Response) : bool :=
  match r with
  | Resolved (Some d) =>
      match status d, progress d with
      | Some st, Some _ => String.eqb st "success"
      | _, _ => false
      end
  | _ => false
  end.

(** The longest run of poller errors with no update in between;
    [current] is the run that is open. *)
Fixpoint error_streak_from (current : nat) (evs : list Event) : nat :=
  match evs with
  | [] => current
  | Settle r :: evs' =>
      if is_error r then error_streak_from (S current) evs'
      else if is_update r then Nat.max current (error_streak_from 0 evs')
      else error_streak_from current evs'
  | Fire _ _ :: evs' => error_streak_from current evs'
  end.

Definition error_streak (evs : list Event) : nat := error_streak_from 0 evs.

(** The handle of the 5000 ms timeout: the second timer of a session. *)
Definition grace_handle : handle := 2%positive.

(** The grace timeout fires in [evs] and no update came before it. *)
Fixpoint grace_expired_in_silence (evs : list Event) : bool :=
  match evs with
  | [] => false
  | Fire h _ :: evs' =>
      if bool_decide (h = grace_handle) then true
      else grace_expired_in_silence evs'
  | Settle r :: evs' =>
      if is_update r then false else grace_expired_in_silence evs'
  end.

(** "The coordinator starts the fallback simulation only when (a) the
    Poller has signalled onError more than once in a row, or (b) no
    authoritative progress update has arrived within the 5-second grace
    window after start()." *)
Definition fallback_only_after_errors_or_silence : Prop :=
  forall c evs w,
    run evs (generateReportStreamWithProgress c) = Some w ->
    fallbackInterval w <> None ->
    (2 <= error_streak evs)%nat \/ grace_expired_in_silence evs = true.

(** No update has been handed over in [evs]. *)
Definition silent (evs : list Event) : bool :=
  forallb (fun ev => match ev with
                     | Settle r => negb (is_update r)
                     | Fire _ _ => true
                     end) evs.

(** A simulator was started in the turn from [w] to [w']: a simulator
    timer is live under the handle that was next in [w], and the shared
    variable holds that handle. *)
Definition simulator_started (w w' : World) : Prop :=
  simulator_timer w' (next_handle (loop w))
  /\ fallbackInterval w' = Some (next_handle (loop w))
  /\ ~ simulator_timer w (next_handle (loop w)).

(** The events that can start a simulation in the code. *)
Definition starts_fallback (ev : Event) (w : World) : Prop :=
  (exists r, ev = Settle r /\ is_error r = true)
  \/ (exists h u, ev = Fire h u /\ grace_timer w h).

(** The response reports a finished analysis. *)
Definition reports_completion (r : Response) : bool :=
  match r with
  | Resolved (Some d) =>
      match progress d with
      | Some pr => 100 <=? Js.round (or_zero (reported_percentage pr))
      | None => false
      end
  | _ => false
  end.

(** An event of a session in which the poller neither errs nor reports
    completion. *)
Definition calm (ev : Event) : bool :=
  match ev with
  | Settle r => negb (is_error r) && negb (reports_completion r)
  | Fire _ _ => true
  end.

(** *** Sample sessions *)

Definition poller_handle : handle := 1%positive.
Definition first_simulator : handle := 3%positive.

(** No poll is answered within five seconds: the poller ticks twice,
    then the 5000 ms timeout fires. *)
Definition session_without_answer : list Event :=
  [ Fire poller_handle 0; Fire poller_handle 0; Fire grace_handle 0 ].

(** The second poll reports less than the first. *)
Definition session_with_regression : list Event :=
  [ Settle (reports "Data Collection" 50);
    Fire poller_handle 0; Settle (reports "Data Collection" 30) ].

(** No poll is answered within five seconds and the timeout starts the
    simulator; then a poll reports completion; the simulator runs on to
    its own end, 3.5 points per tick. *)
Definition session_completed_twice : list Event :=
  session_without_answer
  ++ [ Settle (reports "Finalization" 100) ]
  ++ repeat (Fire first_simulator (5 # 6)) 29.

(** The first poll is rejected. *)
Definition session_with_one_error : list Event := [ Settle Rejected ].

(** No poll is ever answered; the simulator runs alone. *)
Definition session_simulated : list Event :=
  session_without_answer ++ repeat (Fire first_simulator (5 # 6)) 29.

Definition session (evs : list Event) : option World :=
  run evs (generateReportStreamWithProgress all_callbacks).

End ProgressStatements.

(** ** Invariants of a session *)

Module Invariants.
Import Loop Poller Coordinator.

(** The update that [fetchProgress] builds from a progress object. *)
Definition update_of (pr : ProgressPayload) : ProgressUpdate :=
  {| phase := or_string (current_phase pr) "Unknown";
     percentage := Js.round (or_zero (reported_percentage pr));
     currentPhase := getCurrentPhaseIndex (current_phase pr) |}.

(** Handles are handed out in increasing order: every live timer has a
    handle below the next one. *)
Definition fresh (l : Loop.t) : Prop :=
  forall h, is_Some (timers l !! h) -> (h < next_handle l)%positive.

(** Only the timeout is one-shot. *)
Definition shaped (l : Loop.t) : Prop :=
  forall h tm, timers l !! h = Some tm ->
    repeats tm = match callback tm with AutoFallback => false | _ => true end.

(** The tracker variable holds a tracker with both callbacks, and a
    poller interval is live only under the handle the tracker stores. *)
Definition tracked (t : option ProgressTracker) (l : Loop.t) : Prop :=
  exists t0, t = Some t0
    /\ Poller.progressCallback t0 = true
    /\ Poller.errorCallback t0 = true
    /\ forall h tm, timers l !! h = Some tm -> callback tm = PollerTick ->
          intervalId t0 = Some h.

(** What a simulator has handed to [onProgress] is in order, at most 100
    and at most its rounded counter. *)
Definition ordered (l : Loop.t) (lg : list Callback) : Prop :=
  forall h,
    nondecreasing (simulated h lg) = true
    /\ forall p, p ∈ simulated h lg ->
          (h < next_handle l)%positive
          /\ p <= 100
          /\ forall tm cp ph, timers l !! h = Some tm ->
                callback tm = FallbackTick cp ph -> p <= Js.round cp.

(** A call that is not a simulator's [onProgress]. *)
Definition not_simulated (c : Callback) : Prop :=
  match c with OnProgress (Simulated _) _ _ => False | _ => True end.

Definition invariant (w : World) : Prop :=
  fresh (loop w) /\ shaped (loop w)
  /\ tracked (progressTracker w) (loop w)
  /\ ordered (loop w) (log w).

(** Before the timeout has fired in a session without poller errors: no
    simulator yet. *)
Definition waiting (w : World) : Prop :=
  fallbackInterval w = None
  /\ completions (log w) = 0%nat
  /\ exists hg, forall h tm, timers (loop w) !! h = Some tm ->
        callback tm = PollerTick \/ (h = hg /\ callback tm = AutoFallback).

(** After it: one simulator, under the handle in [fallbackInterval], that
    has not completed while its timer is live. *)
Definition simulating (w : World) : Prop :=
  exists hs, fallbackInterval w = Some hs
    /\ (forall h tm, timers (loop w) !! h = Some tm ->
          callback tm = PollerTick
          \/ (h = hs /\ exists cp ph, callback tm = FallbackTick cp ph))
    /\ (completions (log w) <= 1)%nat
    /\ (is_Some (timers (loop w) !! hs) -> completions (log w) = 0%nat).

Definition single_simulator (w : World) : Prop := waiting w \/ simulating w.

End Invariants.

From Stdlib Require DecimalString DecimalNat DecimalN DecimalPos Lqa.

(** ** More of [ReportComponent.tsx] *)

Module ReportCharts.
Import Reconciler.

(** The second chart branch of [handleSendMessage] (charts found in
    [response.data.charts]): every chart is pushed, none is compared. *)
Definition push_body (updatedCharts : list ChartDataFromBackend)
    (item : ChartDataFromBackend * Z) : list ChartDataFromBackend :=
  let '(newChart, now) := item in
  updatedCharts ++ [addition newChart now].

Definition pushAll (prev : list ChartDataFromBackend)
    (chartsFromData : list (ChartDataFromBackend * Z))
  : list ChartDataFromBackend :=
  fold_left push_body chartsFromData prev.






(** A character that [toLowerCase] changes. *)
Definition is_upper (c : ascii) : bool :=
  let n := N_of_ascii c in ((65 <=? n) && (n <=? 90))%N.

Fixpoint string_forallb (p : ascii -> bool) (s : string) : bool :=
  match s with
  | EmptyString => true
  | String c s' => p c && string_forallb p s'
  end.


End ReportCharts.

(** ** The chat round trip: [processChatbotMessage] of [services/api.js]
       and the branch of [handleSendMessage] that its answer selects *)

Module Chat.

(** [k] starts [s]. *)
Fixpoint startsWith (s k : string) : bool :=
  match k, s with
  | EmptyString, _ => true
  | String a k', String b s' => Ascii.eqb a b && startsWith s' k'
  | String _ _, EmptyString => false
  end.

(** [s.includes(k)] *)
Fixpoint includes (s k : string) : bool :=
  if startsWith s k then true
  else match s with
       | EmptyString => false
       | String _ s' => includes s' k
       end.

(** [isChartRequest] of [api.js]. *)
Definition chartKeywords : list string :=
  [ "chart"; "graph"; "plot"; "visualiz"; "show"; "generate"; "create";
    "display"; "pie"; "bar"; "line"; "scatter"; "doughnut"; "area"; "radar";
    "polar"; "dashboard"; "report"; "metrics"; "data"; "statistics";
    "analytics" ]%string.

Definition isChartRequest (prompt : string) : bool :=
  let lowerPrompt := Js.toLowerCase prompt in
  existsb (fun keyword => includes lowerPrompt keyword) chartKeywords.

(** The test of [handleSendMessage] that arms the fifteen-second notice. *)
Definition expectsCharts (currentPrompt : string) : bool :=
  includes (Js.toLowerCase currentPrompt) "chart"
  || includes (Js.toLowerCase currentPrompt) "graph"
  || includes (Js.toLowerCase currentPrompt) "visualiz".


Section WithCharts.

(** A chart as the backend sends it, a chart as the component keeps it,
    and [convertChartData] between them. *)
Variables BackendChart Chart : Type.
Variable convertChartData : BackendChart -> Chart.

(** The message of the [TypeError] that reading a property of
    [undefined] raises; the engine words it. *)
Variable type_error : string.











End WithCharts.

End Chat.

(** ** More of [progressTracker.ts]: [formatTime] and
       [createSimulatedProgress] *)

Module Tracker.

(** [`${n}`] for a whole number that is not negative. *)
Definition show (n : Z) : string :=
  DecimalString.NilZero.string_of_uint (N.to_uint (Z.to_N n)).

Definition is_digit (c : ascii) : bool :=
  let n := N_of_ascii c in ((48 <=? n) && (n <=? 57))%N.

(** [ProgressTracker.formatTime], on whole seconds. *)
Definition formatTime (seconds : Z) : string :=
  if seconds <=? 0 then "--"%string
  else
    let minutes := seconds / 60 in
    let remainingSeconds := seconds mod 60 in
    if 0 <? minutes
    then (show minutes ++ "m " ++ show remainingSeconds ++ "s")%string
    else (show remainingSeconds ++ "s")%string.

(** [interface ProgressUpdate] with all its fields. *)
Record ProgressUpdate := mkUpdate {
  sessionId : string;
  phase : string;
  percentage : Z;
  currentTask : string;
  estimatedTimeRemaining : Z;
  elapsedTime : Z;
  totalPhases : Z;
  currentPhase : Z
}.

(** What one run of the interval callback of [createSimulatedProgress]
    does to its caller: calls of [onProgress] and [onComplete], and
    [Thrown] when it raises a [TypeError] on [currentPhase.name]. *)
Inductive Output :=
| Progress (u : ProgressUpdate)
| Complete
| Thrown.

(** The variables of one call of [createSimulatedProgress]; [live] tells
    that its interval has not been cleared. *)
Record Simulation := mkSimulation {
  currentPhaseIndex : nat;
  phaseProgress : Q;
  startTime : Z;
  live : bool
}.

(** [createSimulatedProgress] up to its return; [now] is [Date.now()]. *)
Definition createSimulatedProgress (now : Z) : Simulation :=
  mkSimulation 0 0 now true.

(** [ANALYSIS_PHASES.reduce((sum, phase) => sum + phase.estimatedDuration, 0)] *)
Definition totalEstimatedTime : Z :=
  fold_left (fun sum phase => sum + Phases.estimatedDuration phase)
            Phases.ANALYSIS_PHASES 0.

Definition phase_count : Q :=
  inject_Z (Z.of_nat (List.length Phases.ANALYSIS_PHASES)).

(** The percentage that a tick in state [s] reports. *)
Definition reported (s : Simulation) : Z :=
  let completedPhases := inject_Z (Z.of_nat (currentPhaseIndex s)) in
  let totalProgress :=
    (completedPhases / phase_count + phaseProgress s / 100 / phase_count)%Q in
  Z.min (Js.round (totalProgress * 100)) 100.

(** The update that a tick in state [s] hands to [onProgress]. *)
Definition update_at (session : string) (now : Z) (s : Simulation)
    (currentPhase : Phases.ProgressPhase) : ProgressUpdate :=
  {| sessionId := session;
     phase := Phases.name currentPhase;
     percentage := reported s;
     currentTask := Phases.description currentPhase;
     estimatedTimeRemaining :=
       Z.max 0 (totalEstimatedTime - (now - startTime s) / 1000);
     elapsedTime := (now - startTime s) / 1000;
     totalPhases := Z.of_nat (List.length Phases.ANALYSIS_PHASES);
     currentPhase := Z.of_nat (currentPhaseIndex s) + 1 |}.

(** One run of the interval callback; [now] and [random] are what
    [Date.now()] and [Math.random()] return in it, [hasComplete] tells
    that [onComplete] was passed. *)
Definition tick (session : string) (hasComplete : bool) (now : Z) (random : Q)
    (s : Simulation) : Simulation * list Output :=
  match Phases.ANALYSIS_PHASES !! currentPhaseIndex s with
  | None => (s, [Thrown])
  | Some currentPhase =>
      let progressUpdate := update_at session now s currentPhase in
      let phaseProgress' := (phaseProgress s + (random * 8 + 2))%Q in
      if Qle_bool 100 phaseProgress' then
        let currentPhaseIndex' := S (currentPhaseIndex s) in
        if (List.length Phases.ANALYSIS_PHASES <=? currentPhaseIndex')%nat then
          (mkSimulation currentPhaseIndex' 0 (startTime s) false,
           Progress progressUpdate :: (if hasComplete then [Complete] else []))
        else
          (mkSimulation currentPhaseIndex' 0 (startTime s) true,
           [Progress progressUpdate])
      else
        (mkSimulation (currentPhaseIndex s) phaseProgress' (startTime s) true,
         [Progress progressUpdate])
  end.

(** The environment's moves: the interval fires, or the caller calls the
    function that [createSimulatedProgress] returned. *)
Inductive Event :=
| Tick (now : Z) (random : Q)
| Cancel.

Definition step (session : string) (hasComplete : bool) (ev : Event)
    (s : Simulation) : option (Simulation * list Output) :=
  match ev with
  | Tick now random =>
      if live s && Coordinator.is_random random
      then Some (tick session hasComplete now random s)
      else None
  | Cancel =>
      Some (mkSimulation (currentPhaseIndex s) (phaseProgress s) (startTime s)
                         false, [])
  end.

(** A run, with everything the caller was called with, oldest first. *)
Fixpoint run (session : string) (hasComplete : bool) (evs : list Event)
    (s : Simulation) : option (Simulation * list Output) :=
  match evs with
  | [] => Some (s, [])
  | ev :: evs' =>
      match step session hasComplete ev s with
      | Some (s1, out1) =>
          match run session hasComplete evs' s1 with
          | Some (s2, out2) => Some (s2, out1 ++ out2)
          | None => None
          end
      | None => None
      end
  end.

Fixpoint updates (outs : list Output) : list ProgressUpdate :=
  match outs with
  | [] => []
  | Progress u :: outs' => u :: updates outs'
  | _ :: outs' => updates outs'
  end.

Definition is_Complete (o : Output) : bool :=
  match o with Complete => true | _ => false end.

(** The band of the progress bar that belongs to phase [k] (from 1). *)
Definition band_low (k : Z) : Z := Js.round (100 * inject_Z (k - 1) / phase_count).
Definition band_high (k : Z) : Z := Js.round (100 * inject_Z k / phase_count).

(** What holds along every run of a simulation.  [counted s n]: the state
    after [n] ticks; a phase takes more than ten ticks and at most fifty. *)
Definition counted (s : Simulation) (n : Z) : Prop :=
  let k := Z.of_nat (currentPhaseIndex s) in
  (currentPhaseIndex s <= 6)%nat
  /\ (live s = true -> (currentPhaseIndex s < 6)%nat)
  /\ (currentPhaseIndex s = 6%nat -> phaseProgress s == 0)
  /\ (0 <= phaseProgress s)%Q /\ (phaseProgress s < 100)%Q
  /\ (inject_Z (2 * (n - 50 * k)) <= phaseProgress s)%Q
  /\ (phaseProgress s <= inject_Z (10 * (n - 11 * k)))%Q.

(** [finished s outs]: [onComplete] is called at most once, as the last
    call, when the last phase is over; the callback never throws. *)
Definition finished (s : Simulation) (outs : list Output) : Prop :=
  (Complete ∈ outs -> currentPhaseIndex s = 6%nat /\ live s = false)
  /\ ~ Thrown ∈ outs
  /\ (List.length (List.filter is_Complete outs) <= 1)%nat
  /\ (forall pre post, outs = pre ++ Complete :: post -> post = []).

(** [well_reported s us]: the updates handed over so far. *)
Definition well_reported (s : Simulation) (us : list ProgressUpdate) : Prop :=
  Coordinator.nondecreasing (List.map percentage us) = true
  /\ (forall u, u ∈ us ->
        0 <= percentage u <= 100
        /\ percentage u <= reported s
        /\ 1 <= currentPhase u <= totalPhases u
        /\ totalPhases u = 6
        /\ (exists ph, Phases.ANALYSIS_PHASES !! Z.to_nat (currentPhase u - 1) = Some ph
                       /\ phase u = Phases.name ph
                       /\ currentTask u = Phases.description ph)
        /\ band_low (currentPhase u) <= percentage u <= band_high (currentPhase u)
        /\ 0 <= estimatedTimeRemaining u).

Definition consistent (s : Simulation) (outs : list Output) : Prop :=
  counted s (Z.of_nat (List.length (updates outs)))
  /\ finished s outs
  /\ well_reported s (updates outs).

(** Sample runs: nine points per tick make twelve ticks per phase. *)
Definition steady_ticks (n : nat) : list Event := repeat (Tick 5000 (7 # 8)) n.

Definition whole_run : list Event := steady_ticks 72.


End Tracker.
(** ** More about a session of [generateReportStreamWithProgress] *)

Module SessionStatements.
Import Loop Poller Coordinator ProgressStatements.

(** The calls that one turn of the event loop can make, for the caller's
    callbacks [c]: nothing, one [onProgress], or [onComplete] behind the
    [onProgress] of the same turn. *)
Definition turn_calls (c : Callbacks) (chunk : list Callback) : Prop :=
  chunk = []
  \/ exists src ph p,
       src <> Connected
       /\ (chunk = [OnProgress src ph p]
           \/ (100 <= p
               /\ chunk = (if onProgress c then [OnProgress src ph p] else [])
                          ++ [OnComplete])).

(** The "connected" event comes first and once. *)
Definition opens_connected (lg : list Callback) : Prop :=
  exists rest,
    lg = OnProgress Connected "initialization" 0 :: rest
    /\ forall ph p, OnProgress Connected ph p ∉ rest.

(** [onComplete] is called right behind an [onProgress] of 100 or more. *)
Definition complete_after_full (lg : list Callback) : Prop :=
  forall i, lg !! i = Some OnComplete ->
    exists j src ph p,
      i = S j /\ lg !! j = Some (OnProgress src ph p) /\ 100 <= p.

(** The tracker after [stopTracking]. *)
Definition stopped (w : World) : Prop :=
  exists t, progressTracker w = Some t
            /\ isTracking t = false /\ intervalId t = None.

(** The handle that the tracker stores was handed out before, and a live
    timer under it is the poller's. *)
Definition poller_owned (w : World) : Prop :=
  forall t h, progressTracker w = Some t -> intervalId t = Some h ->
    (h < next_handle (loop w))%positive
    /\ forall tm, timers (loop w) !! h = Some tm -> callback tm = PollerTick.

Definition is_simulator (tm : Timer) : bool :=
  match callback tm with FallbackTick _ _ => true | _ => false end.

(** How the timers change: handles are never reused, new timers are
    simulators, and a timer changes only by a simulator saving its
    variables. *)
Definition evolves (l l' : Loop.t) : Prop :=
  (next_handle l <= next_handle l')%positive
  /\ forall h tm', timers l' !! h = Some tm' ->
       ((next_handle l <= h)%positive /\ is_simulator tm' = true)
       \/ exists tm, timers l !! h = Some tm
            /\ (tm' = tm \/ (is_simulator tm = true /\ is_simulator tm' = true)).

(** A simulator whose handle the shared variable [fallbackInterval] has
    lost to a later simulator. *)
Definition orphan (w : World) (h : handle) : Prop :=
  simulator_timer w h /\ fallbackInterval w <> Some h.

(** Where a simulator stands after [n] calls of [onProgress]: its counter
    has grown by 1 to 4 per call, and its phase index follows. *)
Definition pace (cp : Q) (ph : nat) (n : nat) : Prop :=
  (inject_Z (Z.of_nat n) <= cp)%Q
  /\ ((n = 0%nat /\ cp == 0) \/ (cp < inject_Z (4 * Z.of_nat n))%Q)
  /\ (ph <= 6)%nat
  /\ (inject_Z (Z.of_nat ph) * phase_share <= cp)%Q
  /\ ((ph < 6)%nat -> (cp < inject_Z (Z.of_nat (ph + 1)) * phase_share)%Q).

Definition paced (l : Loop.t) (lg : list Callback) : Prop :=
  forall h,
    (List.length (simulated h lg) <= 100)%nat
    /\ (forall i p, simulated h lg !! i = Some p ->
          Z.of_nat (S i) <= p <= 4 * Z.of_nat (S i))
    /\ (forall tm cp ph, timers l !! h = Some tm ->
          callback tm = FallbackTick cp ph ->
          pace cp ph (List.length (simulated h lg))).

(** A poll fails, then the timeout fires: two simulators, under the
    handles 3 and 4. *)
Definition session_two_simulators : list Event :=
  [ Settle Rejected; Fire grace_handle 0 ].

Definition second_simulator : handle := 4%positive.

(** The first poll reports the end of the analysis. *)
Definition session_finished_at_once : list Event :=
  [ Settle (reports "Finalization" 100) ].

(** The overwritten simulator runs to its end and beyond. *)
Definition first_simulator_ticks : list Event :=
  repeat (Fire first_simulator (5 # 6)) 40.

(** After the end of the analysis the timeout and its simulator run. *)
Definition after_the_end : list Event :=
  [ Fire grace_handle 0; Fire first_simulator 0 ].

End SessionStatements.

(** * Properties *)

(** ** [findIndex] *)

Module JsFacts.
Import Js.

Lemma findIndex_from_bounds {A} (p : A -> bool) l i :
  0 <= i ->
  findIndex_from p l i = -1
  \/ i <= findIndex_from p l i < i + Z.of_nat (List.length l).
Proof.
  revert i; induction l as [|x l IH]; intros i Hi; simpl.
  - now left.
  - destruct (p x).
    + right; lia.
    + destruct (IH (i + 1)) as [H|H]; [lia|now left|right; lia].
Qed.

Lemma findIndex_from_first {A} (p : A -> bool) (l : list A) i k x :
  l !! k = Some x ->
  p x = true ->
  (forall j y, (j < k)%nat -> l !! j = Some y -> p y = false) ->
  findIndex_from p l i = i + Z.of_nat k.
Proof.
  revert i k; induction l as [|a l IH]; intros i k Hk Hp Hbefore.
  - discriminate.
  - destruct k as [|k]; simpl in *.
    + injection Hk as ->. rewrite Hp. lia.
    + assert (Ha : p a = false) by (apply (Hbefore 0%nat a); [lia|reflexivity]).
      rewrite Ha, (IH (i + 1) k); [lia|exact Hk|exact Hp|].
      intros j y Hj Hy. apply (Hbefore (S j) y); [lia|exact Hy].
Qed.

Lemma findIndex_from_none {A} (p : A -> bool) (l : list A) i :
  (forall x, x ∈ l -> p x = false) ->
  findIndex_from p l i = -1.
Proof.
  revert i; induction l as [|a l IH]; intros i H; simpl; [reflexivity|].
  rewrite (H a) by constructor.
  apply IH. intros x Hx. apply H. now constructor.
Qed.

(** A hit of [findIndex] is the first element that satisfies [p]. *)
Lemma findIndex_from_hit {A} (p : A -> bool) (l : list A) i :
  0 <= i ->
  findIndex_from p l i <> -1 ->
  exists k x,
    findIndex_from p l i = i + Z.of_nat k
    /\ l !! k = Some x /\ p x = true
    /\ (forall j y, (j < k)%nat -> l !! j = Some y -> p y = false).
Proof.
  revert i; induction l as [|a l IH]; intros i Hi Hhit; simpl in *.
  - congruence.
  - destruct (p a) eqn:Hpa.
    + exists 0%nat, a.
      split; [lia|]. split; [reflexivity|]. split; [exact Hpa|].
      intros j y Hj; lia.
    + destruct (IH (i + 1)) as (k & x & Heq & Hk & Hpx & Hbefore); [lia|auto|].
      exists (S k), x.
      split; [lia|]. split; [exact Hk|]. split; [exact Hpx|].
      intros [|j] y Hj Hy; simpl in Hy.
      * now injection Hy as <-.
      * apply (Hbefore j y); [lia|exact Hy].
Qed.

Lemma findIndex_from_miss {A} (p : A -> bool) (l : list A) i :
  0 <= i ->
  findIndex_from p l i = -1 ->
  forall x, x ∈ l -> p x = false.
Proof.
  revert i; induction l as [|a l IH]; intros i Hi Hmiss x Hx.
  - inversion Hx.
  - simpl in Hmiss. destruct (p a) eqn:Hpa; [lia|].
    inversion Hx; subst; [exact Hpa|].
    apply (IH (i + 1)); [lia|exact Hmiss|assumption].
Qed.


End JsFacts.

(** ** ChartReconciler *)

Module MergeFacts.
Import Js JsFacts Reconciler MergeStatements.

Lemma forEach_body_hit st c now j :
  findIndex (matches c) (updatedCharts st) = Z.of_nat j ->
  forEach_body st (c, now) =
    mkMerge (<[j := replacement c now]> (updatedCharts st))
            (S (chartsUpdated st)) (chartsAdded st).
Proof.
  intros H. unfold forEach_body. rewrite H.
  destruct (0 <=? Z.of_nat j) eqn:E; [|apply Z.leb_gt in E; lia].
  now rewrite Nat2Z.id.
Qed.

Lemma forEach_body_miss st c now :
  findIndex (matches c) (updatedCharts st) = -1 ->
  forEach_body st (c, now) =
    mkMerge (updatedCharts st ++ [addition c now])
            (chartsUpdated st) (S (chartsAdded st)).
Proof. intros H. unfold forEach_body. now rewrite H. Qed.

(** Every iteration either hits a slot of the working copy or misses. *)
Lemma forEach_body_cases st c now :
  (exists j y, updatedCharts st !! j = Some y /\ matches c y = true
               /\ forEach_body st (c, now) =
                    mkMerge (<[j := replacement c now]> (updatedCharts st))
                            (S (chartsUpdated st)) (chartsAdded st))
  \/ ((forall x, x ∈ updatedCharts st -> matches c x = false)
      /\ forEach_body st (c, now) =
           mkMerge (updatedCharts st ++ [addition c now])
                   (chartsUpdated st) (S (chartsAdded st))).
Proof.
  destruct (Z.eq_dec (findIndex (matches c) (updatedCharts st)) (-1)) as [Hm|Hh].
  - right. split; [|now apply forEach_body_miss].
    now apply (findIndex_from_miss _ _ 0 ltac:(lia)).
  - left.
    destruct (findIndex_from_hit _ _ 0 ltac:(lia) Hh) as (j & y & Heq & Hj & Hy & _).
    exists j, y. split; [exact Hj|]. split; [exact Hy|].
    apply forEach_body_hit. exact Heq.
Qed.






(** The counters, started anywhere: every iteration adds one to exactly
    one of them, and only an addition lengthens the working copy. *)
Lemma forEach_counts batch st :
  (chartsUpdated (fold_left forEach_body batch st)
   + chartsAdded (fold_left forEach_body batch st)
     = chartsUpdated st + chartsAdded st + List.length batch)%nat
  /\ (List.length (updatedCharts (fold_left forEach_body batch st))
      + chartsAdded st
     = List.length (updatedCharts st)
       + chartsAdded (fold_left forEach_body batch st))%nat.
Proof.
  revert st; induction batch as [|[c now] batch IH]; intros st;
    cbn [fold_left List.length].
  - lia.
  - destruct (IH (forEach_body st (c, now))) as [IH1 IH2].
    destruct (forEach_body_cases st c now)
      as [(j & y & _ & _ & E)|[_ E]];
      rewrite E in IH1, IH2 |- *;
      cbn [updatedCharts chartsUpdated chartsAdded] in IH1, IH2.
    + rewrite length_insert in IH2. lia.
    + rewrite length_app in IH2. cbn [List.length] in IH2. lia.
Qed.


End MergeFacts.

Module MergeTheorems.
Import Js JsFacts Reconciler MergeStatements MergeFacts.


(** The three examples of the specification's list of testable
    properties, run through the embedding. *)
Example merge_regenerated_revenue :
  merge [revenue_old] [(revenue_new, 1000)]
  = mkMerge [replacement revenue_new 1000] 1 0.
Proof. reflexivity. Qed.

Example merge_into_empty :
  merge [] [(new_insight, 1000)] = mkMerge [addition new_insight 1000] 0 1.
Proof. reflexivity. Qed.

Example merge_growth_rate :
  merge [growth] [(growth_rate, 1000)]
  = mkMerge [growth; addition growth_rate 1000] 0 1.
Proof. reflexivity. Qed.









(** C10: every candidate adds one to exactly one of the two counters, so
    [chartsUpdated + chartsAdded] is the number of candidates, and the
    result is as long as the existing collection plus [chartsAdded]. *)
Theorem merge_counts prev batch :
  (forall st item,
     (chartsUpdated (forEach_body st item) = S (chartsUpdated st)
      /\ chartsAdded (forEach_body st item) = chartsAdded st)
     \/ (chartsUpdated (forEach_body st item) = chartsUpdated st
         /\ chartsAdded (forEach_body st item) = S (chartsAdded st)))
  /\ (chartsUpdated (merge prev batch) + chartsAdded (merge prev batch)
      = List.length batch)%nat
  /\ (List.length (updatedCharts (merge prev batch))
      = List.length prev + chartsAdded (merge prev batch))%nat.
Proof.
  split.
  - intros st [c now].
    destruct (forEach_body_cases st c now)
      as [(j & y & _ & _ & E)|[_ E]]; rewrite E; simpl; auto.
  - unfold merge.
    destruct (forEach_counts batch (mkMerge prev 0 0)) as [H1 H2].
    cbn [updatedCharts chartsUpdated chartsAdded] in H1, H2. lia.
Qed.

End MergeTheorems.

(** ** ProgressPoller *)

Module PollerFacts.
Import Loop Poller ProgressStatements.

(** [stopTracking] clears the flag and the poller's interval, so the
    timer cannot fire again and a [fetchProgress] sends nothing. *)
Lemma stopTracking_stops t l :
  isTracking (fst (stopTracking t l)) = false
  /\ intervalId (fst (stopTracking t l)) = None
  /\ fetchProgress_sends (fst (stopTracking t l)) = false
  /\ (forall h, intervalId t = Some h ->
                timers (snd (stopTracking t l)) !! h = None).
Proof.
  unfold stopTracking, fetchProgress_sends. simpl.
  destruct (intervalId t) as [h|]; simpl; repeat split; try reflexivity.
  - intros h' [= <-]. apply lookup_delete_eq.
  - intros h' [=].
Qed.

(** [stopTracking] is idempotent. *)
Lemma stopTracking_idempotent t l :
  stopTracking (fst (stopTracking t l)) (snd (stopTracking t l))
  = stopTracking t l.
Proof.
  unfold stopTracking. simpl. destruct (intervalId t); reflexivity.
Qed.

(** The callbacks and the stored state of the tracker do not depend on
    [isTracking] once the request has settled. *)
Lemma fetchProgress_resume_ignores_flag r t l :
  snd (fetchProgress_resume r t l)
  = snd (fetchProgress_resume r
           (mkTracker (progressCallback t) (errorCallback t)
                      (intervalId t) true) l).
Proof.
  destruct r as [|[d|]]; simpl; try reflexivity.
  destruct (status d) as [st|]; [|reflexivity].
  destruct (progress d) as [pr|]; [|reflexivity].
  destruct (String.eqb st "success"); [|reflexivity].
  destruct (100 <=? _); [|reflexivity].
  unfold stopTracking; simpl. destruct (intervalId t); reflexivity.
Qed.

(** C8, as the specification words it, fails: on a body whose status is
    ["error"] and that has no [progress], the poller calls nothing. *)
Lemma failed_status_is_ignored : ~ malformed_payload_raises_onError.
Proof.
  intros H.
  specialize (H failed_status (fst started) (snd started) eq_refl).
  assert (Hlack : lacks_progress failed_status).
  { right. eexists. split; [reflexivity|]. right. reflexivity. }
  specialize (H Hlack). vm_compute in H. discriminate H.
Qed.

(** C8, amended: a rejected request and an empty body make the poller
    call [onError]; a body whose status is not ["success"] or that has
    no [progress] object is ignored: the poller calls nothing and its
    state and timer stay as they are. *)
Theorem unusable_response_errors_or_is_ignored r t l :
  errorCallback t = true ->
  (r = Rejected \/ r = Resolved None ->
     fetchProgress_resume r t l = (t, l, [CallError]))
  /\ (forall d, r = Resolved (Some d) ->
        status d <> Some "success"%string \/ progress d = None ->
        fetchProgress_resume r t l = (t, l, [])).
Proof.
  intros Herr. split.
  - intros [-> | ->]; simpl; now rewrite Herr.
  - intros d -> Hbad. simpl.
    destruct (status d) as [st|] eqn:Est; [|reflexivity].
    destruct (progress d) as [pr|] eqn:Epr; [|reflexivity].
    destruct (String.eqb_spec st "success") as [->|]; [|reflexivity].
    destruct Hbad as [Hbad|Hbad]; [contradiction|discriminate].
Qed.

Lemma unusable_response_errors_or_is_ignored_witness :
  fetchProgress_resume Rejected (fst started) (snd started)
    = (fst started, snd started, [CallError])
  /\ fetchProgress_resume failed_status (fst started) (snd started)
    = (fst started, snd started, []).
Proof.
  destruct (unusable_response_errors_or_is_ignored
              Rejected (fst started) (snd started) eq_refl) as [Hrej _].
  destruct (unusable_response_errors_or_is_ignored
              failed_status (fst started) (snd started) eq_refl) as [_ Hign].
  split.
  - apply Hrej. left. reflexivity.
  - apply (Hign (mkPayload (Some "error"%string) None) eq_refl).
    right. reflexivity.
Defined.

(** C9: the code breaks it.  A tracker is started and stopped at once:
    the flag is off and no timer is left, yet the request that
    [startTracking] sent is still awaited, and when it settles
    [fetchProgress] calls [onUpdate] (or [onError]) without looking at
    the flag again. *)
Theorem callback_after_stop :
  snd (startTracking true Poller.new Loop.empty) = true
  /\ isTracking (fst started_then_stopped) = false
  /\ timers (snd started_then_stopped) = ∅
  /\ snd (fetchProgress_resume (reports "Data Collection" 10)
            (fst started_then_stopped) (snd started_then_stopped))
     = [CallProgress (mkUpdate "Data Collection" 10 2)]
  /\ snd (fetchProgress_resume Rejected
            (fst started_then_stopped) (snd started_then_stopped))
     = [CallError]
  /\ ~ silent_after_stop.
Proof.
  split; [reflexivity|]. split; [reflexivity|]. split; [reflexivity|].
  split; [reflexivity|]. split; [reflexivity|].
  intros H. specialize (H Rejected (fst started) (snd started)).
  vm_compute in H. discriminate H.
Qed.

End PollerFacts.

Module ResumeFacts.
Import Loop Poller ProgressStatements Invariants.

(** The three ways [fetchProgress] can end once its request has settled:
    in the [catch], past the [if] without entering it, or inside it. *)
Lemma fetchProgress_resume_cases r t l :
  (is_error r = true
   /\ fetchProgress_resume r t l
      = (t, l, if errorCallback t then [CallError] else []))
  \/ (is_error r = false /\ is_update r = false
      /\ fetchProgress_resume r t l = (t, l, []))
  \/ (exists pr,
        is_error r = false /\ is_update r = true
        /\ reports_completion r = (100 <=? percentage (update_of pr))
        /\ fetchProgress_resume r t l
           = (if 100 <=? percentage (update_of pr)
              then stopTracking t l else (t, l),
              if progressCallback t
              then [CallProgress (update_of pr)] else [])).
Proof.
  destruct r as [|[d|]]; [left; split; reflexivity| |left; split; reflexivity].
  right. unfold is_update, reports_completion. simpl.
  destruct (status d) as [st|]; [|left; repeat split].
  destruct (progress d) as [pr|]; [|left; repeat split].
  destruct (String.eqb st "success"); [|left; repeat split].
  right. exists pr. unfold update_of. simpl.
  split; [reflexivity|]. split; [reflexivity|]. split; [reflexivity|].
  destruct (100 <=? _); [|reflexivity].
  destruct (stopTracking t l). reflexivity.
Qed.

End ResumeFacts.

(** ** ProgressCoordinator *)

Module CoordinatorExamples.
Import Loop Poller Coordinator ProgressStatements.

(** A session begins with the poller's interval, the 5000 ms timeout,
    one request awaiting its response, and the "connected" event. *)
Example session_start :
  let w := generateReportStreamWithProgress all_callbacks in
  poller_timer w poller_handle /\ grace_timer w grace_handle
  /\ pending w = 1%nat /\ fallbackInterval w = None
  /\ log w = [OnProgress Connected "initialization" 0].
Proof. repeat split. Qed.

(** C1, as the specification words it, fails: no poll is answered in
    five seconds, the timeout starts the simulator's interval, and the
    poller's interval is still live next to it. *)
Lemma poller_and_simulator_timers_coexist : ~ single_active_source.
Proof.
  intros H.
  assert (E : exists w, session session_without_answer = Some w
                        /\ poller_timer w poller_handle
                        /\ simulator_timer w first_simulator).
  { eexists. split; [vm_compute; reflexivity|].
    split; [reflexivity|]. eexists _, _. reflexivity. }
  destruct E as (w & Hrun & Hp & Hs).
  apply (H all_callbacks w).
  - exists session_without_answer. exact Hrun.
  - exists poller_handle, first_simulator. split; assumption.
Qed.

(** C2, as the specification words it, fails: the poller's percentages
    reach [onProgress] as reported, 50 and then 30. *)
Lemma polled_percentage_can_drop : ~ percentages_never_decrease.
Proof.
  intros H.
  assert (E : exists w, session session_with_regression = Some w
                        /\ percentages (log w) = [0; 50; 30]).
  { eexists. split; [vm_compute; reflexivity|]. reflexivity. }
  destruct E as (w & Hrun & Hlog).
  specialize (H all_callbacks w (ex_intro _ session_with_regression Hrun)).
  rewrite Hlog in H. discriminate H.
Qed.

(** C3, as the specification words it, fails: the simulator is started
    after five seconds without an answer, then the poller reports 100
    and completes; nothing stops the simulator, which completes a second
    time. *)
Lemma both_sources_complete : ~ single_terminal_event.
Proof.
  intros H.
  assert (E : exists w, session session_completed_twice = Some w
                        /\ hundreds (log w) = 2%nat
                        /\ completions (log w) = 2%nat).
  { eexists. split; [vm_compute; reflexivity|]. split; reflexivity. }
  destruct E as (w & Hrun & Hh & Hc).
  destruct (H all_callbacks w (ex_intro _ session_completed_twice Hrun))
    as [_ Hle].
  rewrite Hc in Hle. lia.
Qed.

(** C4, as the specification words it, fails: one rejected poll, the
    first, starts the simulation, before the timeout has fired. *)
Lemma fallback_on_first_error : ~ fallback_only_after_errors_or_silence.
Proof.
  intros H.
  assert (E : exists w, session session_with_one_error = Some w
                        /\ fallbackInterval w = Some first_simulator
                        /\ grace_timer w grace_handle).
  { eexists. split; [vm_compute; reflexivity|]. split; reflexivity. }
  destruct E as (w & Hrun & Hf & _).
  destruct (H all_callbacks session_with_one_error w Hrun) as [Hs|Hg].
  - rewrite Hf. discriminate.
  - vm_compute in Hs. lia.
  - vm_compute in Hg. discriminate Hg.
Qed.

End CoordinatorExamples.

(** ** The invariants hold along every session *)

Module LoopFacts.
Import Loop Poller Coordinator Invariants.

Lemma lookup_clear h h' l tm :
  timers (clearInterval h l) !! h' = Some tm ->
  h' <> h /\ timers l !! h' = Some tm.
Proof.
  simpl. intros H. apply lookup_delete_Some in H. destruct H; auto.
Qed.

Lemma lookup_save h c h' l tm :
  timers (save h c l) !! h' = Some tm ->
  (h' = h /\ exists tm0, timers l !! h = Some tm0
                         /\ tm = mkTimer c (repeats tm0))
  \/ (h' <> h /\ timers l !! h' = Some tm).
Proof.
  simpl. intros H. destruct (decide (h' = h)) as [->|Hne].
  - left. split; [reflexivity|].
    rewrite lookup_alter_eq in H.
    destruct (timers l !! h) as [tm0|]; [|discriminate].
    exists tm0. split; [reflexivity|]. simpl in H. congruence.
  - right. split; [assumption|]. now rewrite lookup_alter_ne in H.
Qed.

Lemma lookup_schedule tm0 l h tm :
  timers (snd (schedule tm0 l)) !! h = Some tm ->
  (h = next_handle l /\ tm = tm0)
  \/ (h <> next_handle l /\ timers l !! h = Some tm).
Proof.
  simpl. intros H. apply lookup_insert_Some in H.
  destruct H as [[<- <-]|[Hne H]]; [left|right]; auto.
Qed.

(** *** [fresh] *)

Lemma fresh_clear h l : fresh l -> fresh (clearInterval h l).
Proof.
  intros Hf h' [tm Htm]. apply lookup_clear in Htm as [_ Htm].
  apply Hf. eauto.
Qed.

Lemma fresh_save h c l : fresh l -> fresh (save h c l).
Proof.
  intros Hf h' [tm Htm].
  apply lookup_save in Htm as [[-> (tm0 & Htm0 & _)]|[_ Htm]];
    apply Hf; eauto.
Qed.

Lemma fresh_schedule tm0 l : fresh l -> fresh (snd (schedule tm0 l)).
Proof.
  intros Hf h [tm Htm].
  apply lookup_schedule in Htm as [[-> _]|[_ Htm]]; simpl.
  - lia.
  - assert (h < next_handle l)%positive by (apply Hf; eauto). lia.
Qed.

Lemma fresh_next_free l : fresh l -> timers l !! next_handle l = None.
Proof.
  intros Hf. destruct (timers l !! next_handle l) eqn:E; [|reflexivity].
  assert (next_handle l < next_handle l)%positive by (apply Hf; eauto). lia.
Qed.

(** *** [shaped] *)

Lemma shaped_clear h l : shaped l -> shaped (clearInterval h l).
Proof.
  intros Hs h' tm Htm. apply lookup_clear in Htm as [_ Htm]. eauto.
Qed.

Lemma shaped_save h cp ph cp' ph' l tm0 :
  shaped l ->
  timers l !! h = Some tm0 -> callback tm0 = FallbackTick cp ph ->
  shaped (save h (FallbackTick cp' ph') l).
Proof.
  intros Hs Htm0 Hcb h' tm Htm.
  apply lookup_save in Htm as [[-> (tm1 & Htm1 & ->)]|[_ Htm]]; [|eauto].
  simpl. rewrite Htm0 in Htm1. injection Htm1 as <-.
  rewrite (Hs h tm0 Htm0), Hcb. reflexivity.
Qed.

Lemma shaped_schedule tm0 l :
  shaped l ->
  repeats tm0 = match callback tm0 with AutoFallback => false | _ => true end ->
  shaped (snd (schedule tm0 l)).
Proof.
  intros Hs H0 h tm Htm.
  apply lookup_schedule in Htm as [[_ ->]|[_ Htm]]; eauto.
Qed.

(** *** [tracked] *)

Lemma tracked_clear t h l : tracked t l -> tracked t (clearInterval h l).
Proof.
  intros (t0 & -> & Hp & He & Hi). exists t0. repeat split; auto.
  intros h' tm Htm. apply lookup_clear in Htm as [_ Htm]. eauto.
Qed.

Lemma tracked_save t h cp ph l :
  tracked t l -> tracked t (save h (FallbackTick cp ph) l).
Proof.
  intros (t0 & -> & Hp & He & Hi). exists t0. repeat split; auto.
  intros h' tm Htm Hcb.
  apply lookup_save in Htm as [[-> (tm1 & Htm1 & ->)]|[_ Htm]]; [|eauto].
  discriminate Hcb.
Qed.

Lemma tracked_schedule t tm0 l :
  tracked t l -> callback tm0 <> PollerTick ->
  tracked t (snd (schedule tm0 l)).
Proof.
  intros (t0 & -> & Hp & He & Hi) Hcb. exists t0. repeat split; auto.
  intros h tm Htm Hpt.
  apply lookup_schedule in Htm as [[_ ->]|[_ Htm]]; [contradiction|eauto].
Qed.

Lemma tracked_stop t l :
  tracked (Some t) l ->
  tracked (Some (fst (stopTracking t l))) (snd (stopTracking t l)).
Proof.
  intros (t0 & [= <-] & Hp & He & Hi). unfold stopTracking. simpl.
  destruct (intervalId t) as [h|] eqn:Eh; simpl.
  - eexists. split; [reflexivity|].
    split; [exact Hp|]. split; [exact He|].
    intros h' tm Htm Hcb. apply lookup_clear in Htm as [Hne Htm].
    specialize (Hi h' tm Htm Hcb). congruence.
  - eexists. split; [reflexivity|].
    split; [exact Hp|]. split; [exact He|].
    intros h' tm Htm Hcb. specialize (Hi h' tm Htm Hcb).
    simpl. congruence.
Qed.

End LoopFacts.

Module LogFacts.
Import Loop Poller Coordinator Invariants.

Lemma simulated_app h l1 l2 :
  simulated h (l1 ++ l2) = simulated h l1 ++ simulated h l2.
Proof.
  induction l1 as [|c l1 IH]; simpl; [reflexivity|].
  destruct c as [[| |h'] ph p| |]; simpl; auto.
  destruct (bool_decide (h' = h)); simpl; congruence.
Qed.

Lemma percentages_app l1 l2 :
  percentages (l1 ++ l2) = percentages l1 ++ percentages l2.
Proof.
  induction l1 as [|c l1 IH]; simpl; [reflexivity|].
  destruct c; simpl; congruence.
Qed.

Lemma completions_app l1 l2 :
  completions (l1 ++ l2) = (completions l1 + completions l2)%nat.
Proof.
  unfold completions. now rewrite List.filter_app, length_app.
Qed.

Lemma nondecreasing_snoc l x :
  nondecreasing l = true ->
  (forall p, p ∈ l -> p <= x) ->
  nondecreasing (l ++ [x]) = true.
Proof.
  induction l as [|a l IH]; intros Hl Hle; [reflexivity|].
  destruct l as [|b l].
  - simpl. rewrite andb_true_r. apply Z.leb_le, Hle. constructor.
  - change (nondecreasing (a :: (b :: l) ++ [x]) = true).
    change ((a <=? b) && nondecreasing ((b :: l) ++ [x]) = true).
    change ((a <=? b) && nondecreasing (b :: l) = true) in Hl.
    apply andb_true_iff in Hl as [Hab Hl].
    rewrite Hab. simpl andb. apply IH; [exact Hl|].
    intros p Hp. apply Hle. now constructor.
Qed.

(** [Math.round] is monotone, and a tick only adds to the counter. *)
Lemma round_le x y : (x <= y)%Q -> Js.round x <= Js.round y.
Proof.
  intros H. unfold Js.round. apply Qfloor_resp_le.
  now apply Qplus_le_l.
Qed.

Lemma tick_grows cp u :
  is_random u = true -> (cp <= cp + (u * 3 + 1))%Q.
Proof.
  unfold is_random. intros H. apply andb_true_iff in H as [H0 _].
  apply Qle_bool_iff in H0.
  rewrite <- (Qplus_0_r cp) at 1. apply Qplus_le_r.
  assert (0 <= u * 3)%Q by (apply Qmult_le_0_compat; [exact H0|discriminate]).
  apply (Qle_trans _ (u * 3)); [assumption|].
  rewrite <- (Qplus_0_r (u * 3)) at 1. apply Qplus_le_r. discriminate.
Qed.

(** *** [ordered] *)

Lemma ordered_clear h l lg : ordered l lg -> ordered (clearInterval h l) lg.
Proof.
  intros Ho h'. destruct (Ho h') as [Hnd Hp]. split; [exact Hnd|].
  intros p Hin. destruct (Hp p Hin) as (Hlt & Hle & Hcp).
  split; [exact Hlt|]. split; [exact Hle|].
  intros tm cp ph Htm. apply LoopFacts.lookup_clear in Htm as [_ Htm]. eauto.
Qed.

Lemma ordered_schedule tm0 l lg :
  ordered l lg -> ordered (snd (schedule tm0 l)) lg.
Proof.
  intros Ho h. destruct (Ho h) as [Hnd Hp]. split; [exact Hnd|].
  intros p Hin. destruct (Hp p Hin) as (Hlt & Hle & Hcp).
  split; [simpl; lia|]. split; [exact Hle|].
  intros tm cp ph Htm.
  apply LoopFacts.lookup_schedule in Htm as [[-> _]|[_ Htm]]; [lia|eauto].
Qed.

Lemma simulated_other h lg c :
  not_simulated c -> simulated h (lg ++ [c]) = simulated h lg.
Proof.
  intros Hc. rewrite simulated_app.
  destruct c as [[| |h'] ph p| |]; simpl; try apply app_nil_r.
  contradiction.
Qed.

Lemma ordered_emit l lg c :
  not_simulated c -> ordered l lg -> ordered l (lg ++ [c]).
Proof.
  intros Hc Ho h. rewrite (simulated_other h lg c Hc). apply Ho.
Qed.

(** The closure of [self] moves its counter up without a call. *)
Lemma ordered_save self cp ph cp' ph' l lg tm0 :
  ordered l lg ->
  timers l !! self = Some tm0 -> callback tm0 = FallbackTick cp ph ->
  Js.round cp <= Js.round cp' ->
  ordered (save self (FallbackTick cp' ph') l) lg.
Proof.
  intros Ho Htm0 Hcb Hle h. destruct (Ho h) as [Hnd Hp]. split; [exact Hnd|].
  intros p Hin. destruct (Hp p Hin) as (Hlt & Hle100 & Hcp).
  split; [exact Hlt|]. split; [exact Hle100|].
  intros tm cp1 ph1 Htm Hcb1.
  apply LoopFacts.lookup_save in Htm as [[-> (tm1 & Htm1 & ->)]|[_ Htm]].
  - simpl in Hcb1. injection Hcb1 as <- <-.
    specialize (Hcp tm0 cp ph Htm0 Hcb). lia.
  - eauto.
Qed.

(** The closure of [self] calls [onProgress] with its new counter,
    rounded and capped. *)
Lemma ordered_tick self cp ph cp' ph' l lg tm0 name :
  fresh l -> ordered l lg ->
  timers l !! self = Some tm0 -> callback tm0 = FallbackTick cp ph ->
  Js.round cp <= Js.round cp' ->
  ordered (save self (FallbackTick cp' ph') l)
          (lg ++ [OnProgress (Simulated self) name (Z.min (Js.round cp') 100)]).
Proof.
  intros Hf Ho Htm0 Hcb Hle h. rewrite simulated_app. simpl.
  destruct (Ho h) as [Hnd Hp].
  destruct (bool_decide_reflect (self = h)) as [<-|Hne].
  - split.
    + apply nondecreasing_snoc; [exact Hnd|].
      intros p Hin. destruct (Hp p Hin) as (_ & Hle100 & Hcp).
      specialize (Hcp tm0 cp ph Htm0 Hcb). lia.
    + intros p Hin. apply elem_of_app in Hin as [Hin|Hin].
      * destruct (Hp p Hin) as (Hlt & Hle100 & Hcp).
        split; [exact Hlt|]. split; [exact Hle100|].
        intros tm cp1 ph1 Htm Hcb1.
        apply LoopFacts.lookup_save in Htm as [[_ (tm1 & Htm1 & ->)]|[Hne _]];
          [|contradiction].
        simpl in Hcb1. injection Hcb1 as <- <-.
        specialize (Hcp tm0 cp ph Htm0 Hcb). lia.
      * apply list_elem_of_singleton in Hin. subst p.
        split; [apply Hf; eauto|]. split; [lia|].
        intros tm cp1 ph1 Htm Hcb1.
        apply LoopFacts.lookup_save in Htm as [[_ (tm1 & Htm1 & ->)]|[Hne _]];
          [|contradiction].
        simpl in Hcb1. injection Hcb1 as <- <-. lia.
  - rewrite app_nil_r. split; [exact Hnd|].
    intros p Hin. destruct (Hp p Hin) as (Hlt & Hle100 & Hcp).
    split; [exact Hlt|]. split; [exact Hle100|].
    intros tm cp1 ph1 Htm Hcb1.
    apply LoopFacts.lookup_save in Htm as [[-> _]|[_ Htm]];
      [contradiction|eauto].
Qed.

End LogFacts.

Module SessionFacts.
Import Loop Poller Coordinator ProgressStatements Invariants.
Import LoopFacts LogFacts ResumeFacts.

Lemma invariant_clear h w :
  invariant w -> invariant (set_loop (clearInterval h (loop w)) w).
Proof.
  intros (Hf & Hs & Ht & Ho). unfold invariant. cbn [set_loop loop progressTracker log].
  split; [now apply fresh_clear|]. split; [now apply shaped_clear|].
  split; [now apply tracked_clear|now apply ordered_clear].
Qed.

Lemma invariant_clear_fallback w : invariant w -> invariant (clear_fallback w).
Proof.
  intros H. unfold clear_fallback.
  destruct (fallbackInterval w); [now apply invariant_clear|exact H].
Qed.

Lemma invariant_emit c w :
  not_simulated c -> invariant w -> invariant (emit c w).
Proof.
  intros Hc (Hf & Hs & Ht & Ho). unfold invariant.
  cbn [emit loop progressTracker log].
  repeat (split; [assumption|]). now apply ordered_emit.
Qed.

Lemma invariant_startFallbackProgress w :
  invariant w -> invariant (startFallbackProgress w).
Proof.
  intros (Hf & Hs & Ht & Ho). unfold invariant, startFallbackProgress, setInterval.
  cbn [schedule loop progressTracker log].
  change (mkLoop _ _) with (snd (schedule (mkTimer (FallbackTick 0 0) true) (loop w))).
  split; [now apply fresh_schedule|].
  split; [now apply shaped_schedule|].
  split; [apply tracked_schedule; [assumption|discriminate]|].
  now apply ordered_schedule.
Qed.

Lemma invariant_pollerTick w : invariant w -> invariant (pollerTick w).
Proof.
  intros H. unfold pollerTick.
  destruct (progressTracker w) as [t|] eqn:Et; [|exact H].
  destruct (fetchProgress_sends t); [|exact H].
  destruct H as (Hf & Hs & Ht & Ho). rewrite Et in Ht.
  unfold invariant. cbn [loop progressTracker log]. auto.
Qed.

Lemma invariant_progressCallback u w :
  invariant w -> invariant (Coordinator.progressCallback u w).
Proof.
  intros H. unfold Coordinator.progressCallback, emit_progress.
  assert (H1 : invariant (if onProgress (cbs w)
                          then emit (OnProgress Polled (step_name (phase u))
                                                (percentage u)) w
                          else w))
    by (destruct (onProgress (cbs w)); [now apply invariant_emit|exact H]).
  destruct (_ && _); [now apply invariant_emit|exact H1].
Qed.

Lemma invariant_dispatch c w : invariant w -> invariant (dispatch c w).
Proof.
  destruct c; simpl; intros H.
  - now apply invariant_progressCallback.
  - now apply invariant_startFallbackProgress.
Qed.

Lemma invariant_dispatch_all calls w :
  invariant w ->
  invariant (fold_left (fun acc c => dispatch c acc) calls w).
Proof.
  revert w; induction calls as [|c calls IH]; intros w H; simpl; [exact H|].
  now apply IH, invariant_dispatch.
Qed.

Lemma invariant_fallbackTick self cp ph u w tm0 :
  invariant w ->
  timers (loop w) !! self = Some tm0 -> callback tm0 = FallbackTick cp ph ->
  is_random u = true ->
  invariant (fallbackTick self cp ph u w).
Proof.
  intros Hinv Htm0 Hcb Hu. unfold fallbackTick.
  destruct (Phases.ANALYSIS_PHASES !! ph) as [phase|];
    [|now apply invariant_clear_fallback].
  set (cp' := (cp + (u * 3 + 1))%Q).
  set (ph' := if Qle_bool _ cp' then S ph else ph).
  assert (Hle : Js.round cp <= Js.round cp')
    by (apply round_le, tick_grows; exact Hu).
  match goal with
  | |- invariant (if _ then _ else ?w2) =>
      assert (H2 : invariant w2)
  end.
  { destruct Hinv as (Hf & Hs & Ht & Ho). unfold invariant, emit_progress.
    destruct (onProgress (cbs w));
      cbn [set_loop emit loop progressTracker log].
    - split; [now apply fresh_save|].
      split; [now apply (shaped_save self cp ph cp' ph' (loop w) tm0)|].
      split; [now apply tracked_save|].
      now apply (ordered_tick self cp ph cp' ph' (loop w) (log w) tm0).
    - split; [now apply fresh_save|].
      split; [now apply (shaped_save self cp ph cp' ph' (loop w) tm0)|].
      split; [now apply tracked_save|].
      now apply (ordered_save self cp ph cp' ph' (loop w) (log w) tm0). }
  destruct (_ || _); [|exact H2].
  apply invariant_clear_fallback in H2.
  destruct (onComplete _); [now apply invariant_emit|exact H2].
Qed.

Lemma start_world c :
  generateReportStreamWithProgress c
  = mkWorld c (Some (mkTracker true true (Some 1%positive) true)) None
      (snd (schedule (mkTimer AutoFallback false)
              (snd (schedule (mkTimer PollerTick true) Loop.empty))))
      1
      (if onProgress c then [OnProgress Connected "initialization" 0] else []).
Proof.
  unfold generateReportStreamWithProgress, emit_progress. simpl.
  destruct (onProgress c); reflexivity.
Qed.

Lemma invariant_start c : invariant (generateReportStreamWithProgress c).
Proof.
  rewrite start_world. unfold invariant. cbn [loop progressTracker log].
  assert (Hf : fresh Loop.empty).
  { intros h [tm Htm]. simpl in Htm. rewrite lookup_empty in Htm. discriminate. }
  assert (Hs : shaped Loop.empty).
  { intros h tm Htm. simpl in Htm. rewrite lookup_empty in Htm. discriminate. }
  split; [now apply fresh_schedule, fresh_schedule|].
  split; [apply shaped_schedule; [apply shaped_schedule|]; auto|].
  split.
  - apply tracked_schedule; [|discriminate].
    eexists. split; [reflexivity|]. split; [reflexivity|]. split; [reflexivity|].
    intros h tm Htm _.
    apply lookup_schedule in Htm as [[-> _]|[_ Htm]]; [reflexivity|].
    simpl in Htm. rewrite lookup_empty in Htm. discriminate.
  - intros h.
    assert (E : simulated h (if onProgress c
                             then [OnProgress Connected "initialization" 0]
                             else []) = [])
      by (destruct (onProgress c); reflexivity).
    rewrite E. split; [reflexivity|]. intros p Hp. inversion Hp.
Qed.

(** Every turn of the event loop keeps the invariant. *)
Lemma invariant_step ev w w' :
  invariant w -> step ev w = Some w' -> invariant w'.
Proof.
  intros Hinv. unfold step. destruct ev as [h u|r].
  - destruct (is_random u) eqn:Hu; [|discriminate].
    destruct (timers (loop w) !! h) as [tm|] eqn:Htm; [|discriminate].
    intros [= <-].
    assert (Hshape := proj1 (proj2 Hinv) h tm Htm).
    destruct tm as [cb rep]. simpl in Hshape.
    destruct cb as [|cp ph|]; subst rep; cbn [repeats callback run_callback].
    + now apply invariant_pollerTick.
    + now apply (invariant_fallbackTick h cp ph u w (mkTimer (FallbackTick cp ph) true)).
    + unfold autoFallback. rewrite orb_negb_l.
      now apply invariant_startFallbackProgress, invariant_clear.
  - destruct (pending w) as [|n]; [discriminate|].
    destruct (progressTracker w) as [t|] eqn:Et; [|discriminate].
    destruct (fetchProgress_resume r t (loop w)) as [[t' l'] calls] eqn:Er.
    intros [= <-]. apply invariant_dispatch_all.
    destruct Hinv as (Hf & Hs & Ht & Ho). rewrite Et in Ht.
    unfold invariant. cbn [loop progressTracker log].
    destruct (fetchProgress_resume_cases r t (loop w))
      as [[_ E]|[(_ & _ & E)|(pr & _ & _ & _ & E)]];
      rewrite E in Er.
    + injection Er as <- <- _. auto.
    + injection Er as <- <- _. auto.
    + destruct (100 <=? _).
      * assert (Hst := tracked_stop t (loop w) Ht).
        destruct (stopTracking t (loop w)) as [t1 l1] eqn:Est.
        injection Er as <- <- _. simpl in Hst.
        assert (El : l1 = match intervalId t with
                          | Some h => clearInterval h (loop w)
                          | None => loop w end).
        { unfold stopTracking in Est. simpl in Est.
          destruct (intervalId t); now injection Est as _ <-. }
        split; [|split; [|split; [exact Hst|]]]; rewrite El;
          destruct (intervalId t); auto.
        -- now apply fresh_clear.
        -- now apply shaped_clear.
        -- now apply ordered_clear.
      * injection Er as <- <- _. auto.
Qed.

Lemma invariant_run evs w w' :
  invariant w -> run evs w = Some w' -> invariant w'.
Proof.
  revert w; induction evs as [|ev evs IH]; intros w Hinv; simpl.
  - now intros [= <-].
  - destruct (step ev w) as [w1|] eqn:E; [|discriminate].
    apply IH. now apply (invariant_step ev w).
Qed.

Lemma invariant_reachable c w : reachable c w -> invariant w.
Proof.
  intros [evs Hrun]. apply (invariant_run evs _ _ (invariant_start c) Hrun).
Qed.

Lemma cbs_clear_fallback w : cbs (clear_fallback w) = cbs w.
Proof. unfold clear_fallback. destruct (fallbackInterval w); reflexivity. Qed.

(** The ways one run of the simulator's callback can end: out of
    phases, it clears the interval in [fallbackInterval]; otherwise it
    moves its counter up with at most one call of [onProgress], and then
    either goes on, or clears that interval and calls [onComplete]. *)
Lemma fallbackTick_cases self cp ph u w :
  fallbackTick self cp ph u w = clear_fallback w
  \/ exists cp' ph' lg,
       completions lg = completions (log w)
       /\ let w2 := mkWorld (cbs w) (progressTracker w) (fallbackInterval w)
                            (save self (FallbackTick cp' ph') (loop w))
                            (pending w) lg in
          fallbackTick self cp ph u w = w2
          \/ fallbackTick self cp ph u w
             = (if onComplete (cbs w) then emit OnComplete (clear_fallback w2)
                else clear_fallback w2).
Proof.
  unfold fallbackTick.
  destruct (Phases.ANALYSIS_PHASES !! ph) as [phase|]; [right|now left].
  set (cp' := (cp + (u * 3 + 1))%Q).
  set (ph' := if Qle_bool _ cp' then S ph else ph).
  exists cp', ph'. unfold emit_progress.
  destruct (onProgress (cbs w)).
  - exists (log w ++ [OnProgress (Simulated self)
                       (step_name (Phases.name phase))
                       (Z.min (Js.round cp') 100)]).
    split; [rewrite completions_app; cbv [completions List.filter is_complete List.length]; lia|].
    destruct (_ || _); [right; rewrite cbs_clear_fallback|left]; reflexivity.
  - exists (log w). split; [reflexivity|].
    destruct (_ || _); [right; rewrite cbs_clear_fallback|left]; reflexivity.
Qed.

Lemma progressCallback_loop u w :
  loop (Coordinator.progressCallback u w) = loop w
  /\ fallbackInterval (Coordinator.progressCallback u w) = fallbackInterval w.
Proof.
  unfold Coordinator.progressCallback, emit_progress.
  destruct (onProgress (cbs w)); destruct (_ && _); split; reflexivity.
Qed.

Lemma progressCallback_below_100 u w :
  percentage u < 100 ->
  completions (log (Coordinator.progressCallback u w)) = completions (log w).
Proof.
  intros Hlt. unfold Coordinator.progressCallback.
  destruct (Z.leb_spec 100 (percentage u)) as [Hge|_]; [lia|].
  simpl andb. cbv iota. unfold emit_progress.
  destruct (onProgress (cbs w)); [|reflexivity].
  cbn [emit log]. rewrite completions_app.
  cbv [completions List.filter is_complete List.length]. lia.
Qed.

Lemma progressCallback_forwards u w :
  onProgress (cbs w) = true ->
  percentages (log (Coordinator.progressCallback u w))
  = percentages (log w) ++ [percentage u].
Proof.
  intros Hon. unfold Coordinator.progressCallback, emit_progress.
  rewrite Hon. destruct (_ && _); cbn [emit log];
    rewrite !percentages_app; simpl; now rewrite ?app_nil_r.
Qed.

End SessionFacts.

Module CoordinatorTheorems.
Import Loop Poller Coordinator ProgressStatements Invariants.
Import LoopFacts LogFacts ResumeFacts SessionFacts.

(** C1, amended: the poller has at most one periodic timer at any
    instant, and starting the fallback does not clear it: after
    [startFallbackProgress] the poller's timer is still live and a
    simulator timer is live next to it under a new handle. *)
Theorem poller_timer_unique_and_kept_by_fallback c w :
  reachable c w ->
  (forall h1 h2, poller_timer w h1 -> poller_timer w h2 -> h1 = h2)
  /\ (forall h, poller_timer w h ->
        poller_timer (startFallbackProgress w) h
        /\ simulator_timer (startFallbackProgress w) (next_handle (loop w))
        /\ h <> next_handle (loop w)).
Proof.
  intros Hr. destruct (invariant_reachable c w Hr) as (Hf & _ & Ht & _).
  split.
  - destruct Ht as (t & _ & _ & _ & Hi). intros h1 h2 H1 H2.
    assert (E1 := Hi h1 _ H1 eq_refl). assert (E2 := Hi h2 _ H2 eq_refl).
    congruence.
  - intros h Hp.
    assert (Hne : h <> next_handle (loop w)).
    { intros ->. unfold poller_timer in Hp.
      rewrite (fresh_next_free _ Hf) in Hp. discriminate. }
    unfold poller_timer, simulator_timer, startFallbackProgress. simpl.
    split; [|split; [|exact Hne]].
    + rewrite lookup_insert_ne by congruence. exact Hp.
    + exists 0%Q, 0%nat. apply lookup_insert_eq.
Qed.

Lemma poller_timer_unique_and_kept_by_fallback_witness :
  poller_timer
    (startFallbackProgress (generateReportStreamWithProgress all_callbacks))
    poller_handle
  /\ simulator_timer
       (startFallbackProgress (generateReportStreamWithProgress all_callbacks))
       first_simulator.
Proof.
  destruct (poller_timer_unique_and_kept_by_fallback all_callbacks
              (generateReportStreamWithProgress all_callbacks)
              (ex_intro _ [] eq_refl)) as [_ H].
  destruct (H poller_handle eq_refl) as (Hp & Hs & _).
  split; [exact Hp|exact Hs].
Defined.

(** C2, amended: the percentages that one run of the fallback simulator
    hands to [onProgress] never decrease and never exceed 100; the
    coordinator does not clamp, a percentage of the poller reaches
    [onProgress] as the poller reports it. *)
Theorem simulator_percentages_never_decrease c w h :
  reachable c w ->
  nondecreasing (simulated h (log w)) = true
  /\ (forall p, p ∈ simulated h (log w) -> p <= 100)
  /\ (forall u, onProgress (cbs w) = true ->
        percentages (log (Coordinator.progressCallback u w))
        = percentages (log w) ++ [percentage u]).
Proof.
  intros Hr. destruct (invariant_reachable c w Hr) as (_ & _ & _ & Ho).
  destruct (Ho h) as [Hnd Hp].
  split; [exact Hnd|]. split.
  - intros p Hin. now destruct (Hp p Hin) as (_ & Hle & _).
  - intros u Hon. now apply progressCallback_forwards.
Qed.

Lemma simulator_percentages_never_decrease_witness :
  exists w, session session_simulated = Some w
            /\ List.length (simulated first_simulator (log w)) = 29%nat
            /\ nondecreasing (simulated first_simulator (log w)) = true.
Proof.
  assert (E : exists w, session session_simulated = Some w
                        /\ List.length (simulated first_simulator (log w)) = 29%nat)
    by (eexists; split; [vm_compute; reflexivity|reflexivity]).
  destruct E as (w & Hrun & Hlen).
  exists w. split; [exact Hrun|]. split; [exact Hlen|].
  apply (simulator_percentages_never_decrease all_callbacks w first_simulator).
  exists session_simulated. exact Hrun.
Defined.

Lemma simulator_timer_clear h0 w h :
  simulator_timer (set_loop (clearInterval h0 (loop w)) w) h ->
  simulator_timer w h.
Proof.
  intros (cp & ph & H). apply lookup_clear in H as [_ H]. now exists cp, ph.
Qed.

Lemma simulator_timer_clear_fallback w h :
  simulator_timer (clear_fallback w) h -> simulator_timer w h.
Proof.
  unfold clear_fallback. destruct (fallbackInterval w); [|auto].
  apply simulator_timer_clear.
Qed.

(** A run of the simulator's callback creates no simulator. *)
Lemma simulator_timer_fallbackTick self cp ph u w h :
  timers (loop w) !! self = Some (mkTimer (FallbackTick cp ph) true) ->
  simulator_timer (fallbackTick self cp ph u w) h ->
  simulator_timer w h.
Proof.
  intros Hself.
  assert (Hsave : forall cp' ph' lg,
    simulator_timer
      (mkWorld (cbs w) (progressTracker w) (fallbackInterval w)
               (save self (FallbackTick cp' ph') (loop w)) (pending w) lg) h ->
    simulator_timer w h).
  { intros cp' ph' lg (cp1 & ph1 & H).
    apply lookup_save in H as [[-> _]|[_ H]].
    - now exists cp, ph.
    - now exists cp1, ph1. }
  destruct (fallbackTick_cases self cp ph u w)
    as [E|(cp' & ph' & lg & _ & [E|E])]; rewrite E.
  - apply simulator_timer_clear_fallback.
  - apply Hsave.
  - intros H. apply (Hsave cp' ph' lg).
    apply simulator_timer_clear_fallback.
    destruct (onComplete (cbs w)); exact H.
Qed.

(** C4, amended: every error of the poller, the first one included,
    starts a simulation, and so does the 5000 ms timeout when no update
    has arrived before it; nothing but an error of the poller or the
    firing of that timeout starts one. *)
Theorem fallback_started_by_error_or_timeout c evs w ev w' :
  run evs (generateReportStreamWithProgress c) = Some w ->
  step ev w = Some w' ->
  ((exists r, ev = Settle r /\ is_error r = true) -> simulator_started w w')
  /\ ((exists h u, ev = Fire h u /\ grace_timer w h) ->
      silent evs = true -> simulator_started w w')
  /\ ((exists h, simulator_timer w' h /\ ~ simulator_timer w h) ->
      starts_fallback ev w).
Proof.
  intros Hrun Hstep.
  assert (Hr : reachable c w) by (exists evs; exact Hrun).
  destruct (invariant_reachable c w Hr) as (Hf & Hs & Ht & _).
  assert (Hfree : ~ simulator_timer w (next_handle (loop w))).
  { intros (cp & ph & H). rewrite (fresh_next_free _ Hf) in H. discriminate. }
  unfold step in Hstep. destruct ev as [h0 u|r].
  - (* a timer fires *)
    split; [intros (r & [=] & _)|].
    destruct (is_random u); [|discriminate].
    destruct (timers (loop w) !! h0) as [tm|] eqn:Htm; [|discriminate].
    injection Hstep as <-.
    assert (Hshape := Hs h0 tm Htm).
    destruct tm as [cb rep]. simpl in Hshape.
    destruct cb as [|cp ph|]; subst rep; cbn [repeats callback run_callback].
    + split.
      * intros (h & u' & [= <- <-] & Hg).
        unfold grace_timer in Hg. congruence.
      * intros (h & Hnew & Hold). exfalso. apply Hold.
        unfold pollerTick in Hnew.
        destruct (progressTracker w) as [t|]; [|exact Hnew].
        destruct (fetchProgress_sends t); exact Hnew.
    + split.
      * intros (h & u' & [= <- <-] & Hg).
        unfold grace_timer in Hg. congruence.
      * intros (h & Hnew & Hold). exfalso. apply Hold.
        now apply (simulator_timer_fallbackTick h0 cp ph u w h).
    + unfold autoFallback. rewrite orb_negb_l. split.
      * intros _ _. unfold simulator_started, simulator_timer, startFallbackProgress.
        simpl. split; [|split; [reflexivity|exact Hfree]].
        exists 0%Q, 0%nat. apply lookup_insert_eq.
      * intros _. right. exists h0, u. split; [reflexivity|exact Htm].
  - (* a request settles *)
    split; [|split; [intros (h & u' & [=] & _)|]].
    all: destruct (pending w) as [|n]; [discriminate|].
    all: destruct Ht as (t & Et & Hpc & Hec & _); rewrite Et in Hstep.
    all: destruct (fetchProgress_resume r t (loop w)) as [[t' l'] calls] eqn:Er.
    all: injection Hstep as <-.
    all: destruct (fetchProgress_resume_cases r t (loop w))
           as [[Herr E]|[(Herr & _ & E)|(pr & Herr & _ & _ & E)]];
         rewrite E in Er.
    + intros _. rewrite Hec in Er. injection Er as <- <- <-. simpl.
      unfold simulator_started, simulator_timer, errorCallback,
        startFallbackProgress.
      simpl. split; [|split; [reflexivity|exact Hfree]].
      exists 0%Q, 0%nat. apply lookup_insert_eq.
    + intros (r' & [= <-] & Herr'). congruence.
    + intros (r' & [= <-] & Herr'). congruence.
    + intros _. left. exists r. split; [reflexivity|exact Herr].
    + injection Er as <- <- <-. simpl.
      intros (h & Hnew & Hold). contradiction.
    + rewrite Hpc in Er.
      assert (Hsub : forall h tm, timers l' !! h = Some tm ->
                                  timers (loop w) !! h = Some tm).
      { destruct (100 <=? _).
        - unfold stopTracking in Er. simpl in Er.
          destruct (intervalId t) as [hp|]; injection Er as _ <- _;
            [intros h tm H; now apply lookup_clear in H as [_ H]|auto].
        - injection Er as _ <- _. auto. }
      assert (Ec : calls = [CallProgress (update_of pr)])
        by (destruct (100 <=? _); [destruct (stopTracking t (loop w))|];
            now injection Er as _ _ <-).
      subst calls. simpl.
      intros (h & (cp & ph & Hnew) & Hold). exfalso. apply Hold.
      rewrite (proj1 (progressCallback_loop _ _)) in Hnew. simpl in Hnew.
      exists cp, ph. now apply Hsub.
Qed.

Lemma fallback_started_by_error_or_timeout_witness :
  (exists w w',
     session [] = Some w /\ step (Settle Rejected) w = Some w'
     /\ simulator_started w w'
     /\ fallbackInterval w' = Some first_simulator)
  /\ (exists w w',
       session [Fire poller_handle 0; Fire poller_handle 0] = Some w
       /\ step (Fire grace_handle 0) w = Some w'
       /\ simulator_started w w'
       /\ fallbackInterval w' = Some first_simulator).
Proof.
  split.
  - exists (generateReportStreamWithProgress all_callbacks).
    eexists. split; [reflexivity|]. split; [vm_compute; reflexivity|].
    destruct (fallback_started_by_error_or_timeout all_callbacks []
                (generateReportStreamWithProgress all_callbacks)
                (Settle Rejected) _ eq_refl eq_refl) as [H _].
    split; [|reflexivity].
    apply H. exists Rejected. split; reflexivity.
  - eexists. eexists. split; [vm_compute; reflexivity|].
    split; [vm_compute; reflexivity|].
    split; [|reflexivity].
    eapply (fallback_started_by_error_or_timeout all_callbacks
              [Fire poller_handle 0; Fire poller_handle 0] _
              (Fire grace_handle 0) _).
    + vm_compute. reflexivity.
    + vm_compute. reflexivity.
    + exists grace_handle, 0%Q. split; reflexivity.
    + reflexivity.
Defined.

End CoordinatorTheorems.

Module SingleSimulator.
Import Loop Poller Coordinator ProgressStatements Invariants.
Import LoopFacts LogFacts ResumeFacts SessionFacts.

(** [single_simulator] reads the shared handle, the timers and the number
    of completions only. *)
Lemma single_simulator_ext w1 w2 :
  fallbackInterval w2 = fallbackInterval w1 ->
  loop w2 = loop w1 ->
  completions (log w2) = completions (log w1) ->
  single_simulator w1 -> single_simulator w2.
Proof.
  intros Ef El Ec [(Hfb & Hc & hg & Ht)|(hs & Hfb & Ht & Hc1 & Hc0)].
  - left. unfold waiting. rewrite Ef, El, Ec. eauto.
  - right. exists hs. rewrite Ef, El, Ec. auto.
Qed.

Lemma single_simulator_start c :
  single_simulator (generateReportStreamWithProgress c).
Proof.
  left. rewrite start_world. unfold waiting. cbn [fallbackInterval log loop].
  split; [reflexivity|]. split; [destruct (onProgress c); reflexivity|].
  exists 2%positive. intros h tm Htm.
  apply lookup_schedule in Htm as [[-> ->]|[_ Htm]]; [right; split; reflexivity|].
  apply lookup_schedule in Htm as [[_ ->]|[_ Htm]]; [left; reflexivity|].
  simpl in Htm. rewrite lookup_empty in Htm. discriminate.
Qed.

Lemma log_clear_fallback w : log (clear_fallback w) = log w.
Proof. unfold clear_fallback. destruct (fallbackInterval w); reflexivity. Qed.

Lemma fallbackInterval_clear_fallback w :
  fallbackInterval (clear_fallback w) = fallbackInterval w.
Proof.
  unfold clear_fallback. destruct (fallbackInterval w) eqn:E; simpl; auto.
Qed.

Lemma clear_fallback_gone w hs :
  fallbackInterval w = Some hs ->
  timers (loop (clear_fallback w)) !! hs = None.
Proof.
  intros E. unfold clear_fallback. rewrite E. apply lookup_delete_eq.
Qed.

(** The timeout fires: the first and only simulator starts. *)
Lemma waiting_autoFallback w h0 :
  fresh (loop w) -> waiting w ->
  timers (loop w) !! h0 = Some (mkTimer AutoFallback false) ->
  simulating (startFallbackProgress (set_loop (clearInterval h0 (loop w)) w)).
Proof.
  intros Hf (Hfb & Hc & hg & Ht) Htm.
  exists (next_handle (loop w)).
  unfold startFallbackProgress. cbn [set_loop setInterval schedule clearInterval
    loop fallbackInterval log timers next_handle fst snd].
  split; [reflexivity|]. split; [|split; [lia|intros _; exact Hc]].
  intros h tm H. apply lookup_insert_Some in H as [[<- <-]|[Hne H]].
  - right. split; [reflexivity|]. now exists 0%Q, 0%nat.
  - apply lookup_delete_Some in H as [Hne0 H].
    destruct (Ht h tm H) as [Hp|[-> Ha]]; [now left|].
    exfalso. destruct (Ht h0 _ Htm) as [Hp|[-> _]]; [discriminate|].
    contradiction.
Qed.

(** The simulator's callback runs: it completes at most once, and then
    its timer is gone. *)
Lemma simulating_fallbackTick w hs cp ph u :
  simulating w ->
  timers (loop w) !! hs = Some (mkTimer (FallbackTick cp ph) true) ->
  simulating (fallbackTick hs cp ph u w).
Proof.
  intros (hs' & Hfb & Ht & Hc1 & Hc0) Htm.
  assert (hs' = hs) as ->.
  { destruct (Ht hs _ Htm) as [Hp|[-> _]]; [discriminate|reflexivity]. }
  assert (Hzero : completions (log w) = 0%nat) by (apply Hc0; eauto).
  assert (Hcleared : forall w2,
    fallbackInterval w2 = Some hs ->
    (forall h tm, timers (loop w2) !! h = Some tm ->
       callback tm = PollerTick
       \/ (h = hs /\ exists cp ph, callback tm = FallbackTick cp ph)) ->
    (completions (log w2) <= 1)%nat ->
    simulating (clear_fallback w2)).
  { intros w2 Hfb2 Ht2 Hc2. exists hs. unfold clear_fallback. rewrite Hfb2.
    cbn [set_loop fallbackInterval loop log].
    split; [exact Hfb2|]. split; [|split; [exact Hc2|]].
    - intros h tm H. apply lookup_clear in H as [_ H]. eauto.
    - intros [tm H]. apply lookup_clear in H as [Hne _]. contradiction. }
  destruct (fallbackTick_cases hs cp ph u w)
    as [E|(cp' & ph' & lg & Hlg & [E|E])]; rewrite E; clear E.
  - apply Hcleared; auto.
  - exists hs. cbn [fallbackInterval loop log].
    split; [exact Hfb|]. split; [|split; [lia|intros _; lia]].
    intros h tm H.
    apply lookup_save in H as [[-> (tm0 & _ & ->)]|[_ H]]; [|eauto].
    right. split; [reflexivity|]. now exists cp', ph'.
  - match goal with
    | |- simulating (if _ then emit _ (clear_fallback ?w2) else _) =>
        assert (H2 : simulating (clear_fallback w2))
    end.
    { apply Hcleared; cbn [fallbackInterval loop log]; [exact Hfb| |lia].
      intros h tm H.
      apply lookup_save in H as [[-> (tm0 & _ & ->)]|[_ H]]; [|eauto].
      right. split; [reflexivity|]. now exists cp', ph'. }
    destruct (onComplete (cbs w)); [|exact H2].
    destruct H2 as (hs2 & Hfb2 & Ht2 & _ & Hgone).
    rewrite fallbackInterval_clear_fallback in Hfb2.
    cbn [fallbackInterval] in Hfb2. rewrite Hfb in Hfb2. injection Hfb2 as <-.
    rewrite log_clear_fallback in Hgone. cbn [log] in Hgone.
    exists hs. cbn [emit fallbackInterval loop log].
    rewrite fallbackInterval_clear_fallback, log_clear_fallback.
    cbn [fallbackInterval log].
    split; [exact Hfb|]. split; [exact Ht2|].
    rewrite completions_app, Hlg, Hzero.
    change (completions [OnComplete]) with 1%nat.
    split; [lia|].
    intros [tm Hlive]. exfalso.
    rewrite (clear_fallback_gone _ hs) in Hlive by exact Hfb.
    discriminate Hlive.
Qed.

(** A turn of the event loop in which the poller neither errs nor
    reports completion keeps the single simulator. *)
Lemma single_simulator_step ev w w' :
  invariant w -> single_simulator w ->
  calm ev = true -> step ev w = Some w' ->
  single_simulator w'.
Proof.
  intros (Hf & Hs & Ht & _) Hss Hcalm Hstep.
  unfold step in Hstep. destruct ev as [h0 u|r].
  - destruct (is_random u); [|discriminate].
    destruct (timers (loop w) !! h0) as [tm|] eqn:Htm; [|discriminate].
    injection Hstep as <-.
    assert (Hshape := Hs h0 tm Htm).
    destruct tm as [cb rep]. simpl in Hshape.
    destruct cb as [|cp ph|]; subst rep; cbn [repeats callback run_callback].
    + apply (single_simulator_ext w); [| |  |exact Hss];
        unfold pollerTick; destruct (progressTracker w) as [t|];
        try destruct (fetchProgress_sends t); reflexivity.
    + right. destruct Hss as [(_ & _ & hg & Hw)|Hsim].
      * destruct (Hw h0 _ Htm) as [Hp|[_ Ha]]; discriminate.
      * now apply simulating_fallbackTick.
    + right. unfold autoFallback. rewrite orb_negb_l.
      destruct Hss as [Hw|(hs & _ & Hsim & _)].
      * now apply waiting_autoFallback.
      * destruct (Hsim h0 _ Htm) as [Hp|[_ (cp & ph & Ha)]]; discriminate.
  - destruct (pending w) as [|n]; [discriminate|].
    destruct Ht as (t & Et & Hpc & Hec & _). rewrite Et in Hstep.
    destruct (fetchProgress_resume r t (loop w)) as [[t' l'] calls] eqn:Er.
    injection Hstep as <-.
    simpl in Hcalm. apply andb_true_iff in Hcalm as [Hne Hnc].
    apply negb_true_iff in Hne, Hnc.
    destruct (fetchProgress_resume_cases r t (loop w))
      as [[Herr E]|[(_ & _ & E)|(pr & _ & _ & Hrc & E)]];
      rewrite E in Er.
    + congruence.
    + injection Er as <- <- <-.
      apply (single_simulator_ext w); [reflexivity..|exact Hss].
    + rewrite <- Hrc, Hnc, Hpc in Er. injection Er as <- <- <-.
      assert (Hlt : percentage (update_of pr) < 100)
        by (apply Z.leb_gt; congruence).
      cbn [fold_left dispatch].
      apply (single_simulator_ext w); [..|exact Hss].
      * now rewrite (proj2 (progressCallback_loop _ _)).
      * now rewrite (proj1 (progressCallback_loop _ _)).
      * now rewrite progressCallback_below_100.
Qed.

Lemma single_simulator_run evs w w' :
  invariant w -> single_simulator w ->
  forallb calm evs = true -> run evs w = Some w' ->
  single_simulator w'.
Proof.
  revert w; induction evs as [|ev evs IH]; intros w Hinv Hss Hcalm; simpl.
  - now intros [= <-].
  - simpl in Hcalm. apply andb_true_iff in Hcalm as [Hev Hevs].
    destruct (step ev w) as [w1|] eqn:E; [|discriminate].
    apply IH; [|now apply (single_simulator_step ev w)|exact Hevs].
    now apply (invariant_step ev w).
Qed.

(** C3, amended: in a session whose poller neither errs nor reports a
    percentage of 100 or more, [onComplete] is called at most once: the
    only simulator, the one the timeout starts, clears its own timer in
    the tick in which it calls [onComplete]. *)
Theorem single_completion_when_poller_is_calm c evs w :
  forallb calm evs = true ->
  run evs (generateReportStreamWithProgress c) = Some w ->
  (completions (log w) <= 1)%nat.
Proof.
  intros Hcalm Hrun.
  destruct (single_simulator_run evs _ w (invariant_start c)
              (single_simulator_start c) Hcalm Hrun)
    as [(_ & Hc & _)|(hs & _ & _ & Hc & _)]; lia.
Qed.

Lemma single_completion_when_poller_is_calm_witness :
  exists w, session session_simulated = Some w
            /\ completions (log w) = 1%nat
            /\ (completions (log w) <= 1)%nat.
Proof.
  assert (E : exists w, session session_simulated = Some w
                        /\ completions (log w) = 1%nat)
    by (eexists; split; [vm_compute; reflexivity|reflexivity]).
  destruct E as (w & Hrun & Hone).
  exists w. split; [exact Hrun|]. split; [exact Hone|].
  apply (single_completion_when_poller_is_calm all_callbacks session_simulated w);
    [reflexivity|exact Hrun].
Defined.

End SingleSimulator.

(** * Further properties of the code *)

(** ** Strings *)

Module JsStringFacts.
Import Js ReportCharts.

Lemma lower_char_not_upper c : is_upper (lower_char c) = false.
Proof. destruct c as [[] [] [] [] [] [] [] []]; reflexivity. Qed.

Lemma lower_char_space c : is_space (lower_char c) = is_space c.
Proof. destruct c as [[] [] [] [] [] [] [] []]; reflexivity. Qed.

Lemma lower_char_fixed c : is_upper c = false -> lower_char c = c.
Proof. unfold lower_char, is_upper. now intros ->. Qed.

Lemma toLowerCase_no_upper s :
  string_forallb (fun c => negb (is_upper c)) (toLowerCase s) = true.
Proof.
  induction s as [|c s IH]; simpl; [reflexivity|].
  now rewrite lower_char_not_upper, IH.
Qed.

Lemma toLowerCase_fixed s :
  string_forallb (fun c => negb (is_upper c)) s = true -> toLowerCase s = s.
Proof.
  induction s as [|c s IH]; simpl; [reflexivity|].
  intros H. apply andb_true_iff in H as [Hc Hs].
  apply negb_true_iff in Hc. now rewrite (lower_char_fixed c Hc), IH.
Qed.

Lemma toLowerCase_idempotent s : toLowerCase (toLowerCase s) = toLowerCase s.
Proof. apply toLowerCase_fixed, toLowerCase_no_upper. Qed.

Lemma toLowerCase_app s1 s2 :
  toLowerCase (s1 ++ s2) = (toLowerCase s1 ++ toLowerCase s2)%string.
Proof.
  induction s1 as [|c s1 IH]; [reflexivity|].
  change (String (lower_char c) (toLowerCase (s1 ++ s2))
          = String (lower_char c) (toLowerCase s1 ++ toLowerCase s2))%string.
  now rewrite IH.
Qed.






End JsStringFacts.

(** ** The derived id and the match test *)

Module ChartIdFacts.
Import Js JsFacts JsStringFacts Reconciler MergeStatements MergeFacts ReportCharts.





Lemma type_eqb_sym a b : type_eqb a b = type_eqb b a.
Proof. unfold type_eqb. apply String.eqb_sym. Qed.

(** X3: the match test is symmetric: whether a candidate matches an
    artifact does not depend on which of the two charts is the candidate. *)
Theorem matches_symmetric a b : matches a b = matches b a.
Proof.
  unfold matches, sameId, sameTitle, similarStructure, list_string_eqb.
  rewrite (String.eqb_sym (chartId b)), (String.eqb_sym (toLowerCase (title b))),
    (type_eqb_sym (type b)), (Nat.eqb_sym (List.length (data b))).
  rewrite (bool_decide_ext (labels b = labels a) (labels a = labels b))
    by (split; congruence).
  reflexivity.
Qed.

Lemma matches_addition c c' now : matches c (addition c' now) = matches c c'.
Proof. reflexivity. Qed.

Lemma matches_replacement c c' now : matches c (replacement c' now) = matches c c'.
Proof. reflexivity. Qed.

Lemma matches_self c : matches c c = true.
Proof. unfold matches, sameId. now rewrite String.eqb_refl. Qed.

End ChartIdFacts.

(** ** More on the merge *)

Module MergeExtras.
Import Js JsFacts Reconciler MergeStatements MergeFacts ReportCharts ChartIdFacts.

Lemma elem_of_insert_inv {A} (l : list A) j r x :
  x ∈ <[j := r]> l -> x = r \/ x ∈ l.
Proof.
  intros H. apply list_elem_of_lookup in H as [k Hk].
  destruct (decide (k = j)) as [->|Hne].
  - left. assert (Hlt : (j < List.length l)%nat).
    { apply lookup_lt_Some in Hk. now rewrite length_insert in Hk. }
    rewrite list_lookup_insert_eq in Hk by exact Hlt. congruence.
  - right. rewrite list_lookup_insert_ne in Hk by congruence.
    apply list_elem_of_lookup. eauto.
Qed.

(** The single merge, by cases. *)
Lemma merge_single_cases prev c now :
  (exists j y, prev !! j = Some y /\ matches c y = true
               /\ merge prev [(c, now)]
                  = mkMerge (<[j := replacement c now]> prev) 1 0)
  \/ ((forall x, x ∈ prev -> matches c x = false)
      /\ merge prev [(c, now)] = mkMerge (prev ++ [addition c now]) 0 1).
Proof. apply (forEach_body_cases (mkMerge prev 0 0) c now). Qed.

(** X4: sending the same chart a second time never adds a second copy:
    the second merge updates one entry and leaves the length as it is. *)
Theorem resending_a_chart_updates_it prev c now1 now2 :
  let once := updatedCharts (merge prev [(c, now1)]) in
  let twice := merge once [(c, now2)] in
  chartsAdded twice = 0%nat /\ chartsUpdated twice = 1%nat
  /\ List.length (updatedCharts twice) = List.length once
  /\ replacement c now2 ∈ updatedCharts twice.
Proof.
  intros once twice.
  assert (Hin : exists k x, once !! k = Some x /\ matches c x = true).
  { subst once.
    destruct (merge_single_cases prev c now1)
      as [(j & y & Hj & _ & ->)|[_ ->]]; cbn [updatedCharts].
    - exists j, (replacement c now1). split.
      + apply list_lookup_insert_eq. eapply lookup_lt_Some; eauto.
      + rewrite matches_replacement. apply matches_self.
    - exists (List.length prev), (addition c now1). split.
      + rewrite lookup_app_r by lia. now rewrite Nat.sub_diag.
      + rewrite matches_addition. apply matches_self. }
  destruct Hin as (k & x & Hk & Hx).
  subst twice.
  destruct (merge_single_cases once c now2)
    as [(j & y & Hj & _ & ->)|[Hnone _]]; cbn [updatedCharts chartsAdded chartsUpdated].
  - split; [reflexivity|]. split; [reflexivity|].
    split; [apply length_insert|].
    apply list_elem_of_lookup. exists j.
    apply list_lookup_insert_eq. eapply lookup_lt_Some; eauto.
  - exfalso. rewrite (Hnone x) in Hx; [discriminate|].
    apply list_elem_of_lookup. eauto.
Qed.

Lemma forEach_provenance batch st x :
  x ∈ updatedCharts (fold_left forEach_body batch st) ->
  x ∈ updatedCharts st
  \/ exists c now, (c, now) ∈ batch
                   /\ (x = replacement c now \/ x = addition c now).
Proof.
  revert st; induction batch as [|[c now] batch IH]; intros st;
    cbn [fold_left].
  - auto.
  - intros H. destruct (IH _ H) as [Hst|(c' & now' & Hin & Hx)].
    + destruct (forEach_body_cases st c now)
        as [(j & y & _ & _ & E)|[_ E]]; rewrite E in Hst;
        cbn [updatedCharts] in Hst.
      * apply elem_of_insert_inv in Hst as [->|Hst]; [|now left].
        right. exists c, now. split; [constructor|now left].
      * apply elem_of_app in Hst as [Hst|Hst]; [now left|].
        apply list_elem_of_singleton in Hst. subst x.
        right. exists c, now. split; [constructor|now right].
    + right. exists c', now'. split; [now constructor|exact Hx].
Qed.

(** X5: the merge invents nothing: every entry of the result is an entry
    of the existing collection, unchanged, or one of the candidates with
    its derived id and a time stamp. *)
Theorem merge_entries_come_from_inputs prev batch x :
  x ∈ updatedCharts (merge prev batch) ->
  x ∈ prev
  \/ exists c now, (c, now) ∈ batch
                   /\ (x = replacement c now \/ x = addition c now).
Proof. apply forEach_provenance. Qed.

Lemma merge_entries_come_from_inputs_witness :
  replacement revenue_new 1000 ∈ [growth; revenue_old]
  \/ exists c now, (c, now) ∈ [(revenue_new, 1000)]
       /\ (replacement revenue_new 1000 = replacement c now
           \/ replacement revenue_new 1000 = addition c now).
Proof.
  apply (merge_entries_come_from_inputs [growth; revenue_old]
           [(revenue_new, 1000)] (replacement revenue_new 1000)).
  vm_compute. apply list_elem_of_In. right. left. reflexivity.
Defined.

(** X6: the last candidate of a batch is always in the result, as a
    replacement or as an addition; earlier candidates need not be. *)
Theorem merge_keeps_last_candidate prev batch c now :
  let r := merge prev (batch ++ [(c, now)]) in
  replacement c now ∈ updatedCharts r \/ addition c now ∈ updatedCharts r.
Proof.
  unfold merge. rewrite fold_left_app. cbn [fold_left].
  destruct (forEach_body_cases
              (fold_left forEach_body batch (mkMerge prev 0 0)) c now)
    as [(j & y & Hj & _ & ->)|[_ ->]]; cbn [updatedCharts].
  - left. apply list_elem_of_lookup. exists j.
    apply list_lookup_insert_eq. eapply lookup_lt_Some; eauto.
  - right. apply elem_of_app. right. constructor.
Qed.

Lemma pushAll_app prev batch :
  pushAll prev batch = prev ++ List.map (fun it => addition (fst it) (snd it)) batch.
Proof.
  unfold pushAll. revert prev; induction batch as [|[c now] batch IH];
    intros prev; cbn [fold_left List.map].
  - now rewrite app_nil_r.
  - rewrite IH. unfold push_body. cbn [fst snd]. now rewrite <- app_assoc.
Qed.

Lemma forEach_updates_grow batch st :
  (chartsUpdated st <= chartsUpdated (fold_left forEach_body batch st))%nat.
Proof.
  revert st; induction batch as [|[c now] batch IH]; intros st;
    cbn [fold_left]; [lia|].
  specialize (IH (forEach_body st (c, now))).
  destruct (forEach_body_cases st c now)
    as [(j & y & _ & _ & E)|[_ E]]; rewrite E in IH |- *;
    cbn [chartsUpdated] in IH; lia.
Qed.

Lemma forEach_without_updates batch st :
  chartsUpdated (fold_left forEach_body batch st) = chartsUpdated st ->
  updatedCharts (fold_left forEach_body batch st)
  = fold_left push_body batch (updatedCharts st).
Proof.
  revert st; induction batch as [|[c now] batch IH]; intros st;
    cbn [fold_left]; [reflexivity|].
  intros Hsame.
  assert (Hgrow := forEach_updates_grow batch (forEach_body st (c, now))).
  destruct (forEach_body_cases st c now)
    as [(j & y & _ & _ & E)|[_ E]]; rewrite E in Hgrow, Hsame |- *;
    cbn [chartsUpdated] in Hgrow.
  - lia.
  - rewrite IH by exact Hsame. reflexivity.
Qed.

(** X7: the second chart branch, which pushes every chart, gives
    [chartsUpdated] more entries than the merge on the same input; the two
    branches give the same collection when the merge updates nothing. *)
Theorem push_branch_and_merge prev batch :
  List.length (pushAll prev batch)
  = (List.length (updatedCharts (merge prev batch))
     + chartsUpdated (merge prev batch))%nat
  /\ (chartsUpdated (merge prev batch) = 0%nat ->
      updatedCharts (merge prev batch) = pushAll prev batch).
Proof.
  split.
  - rewrite pushAll_app, length_app, length_map.
    destruct (forEach_counts batch (mkMerge prev 0 0)) as [H1 H2].
    cbn [updatedCharts chartsUpdated chartsAdded] in H1, H2.
    unfold merge. lia.
  - intros H0. unfold merge, pushAll.
    now apply (forEach_without_updates batch (mkMerge prev 0 0)).
Qed.

Lemma push_branch_and_merge_witness :
  updatedCharts (merge [growth] [(growth_rate, 1000); (new_insight, 1001)])
  = pushAll [growth] [(growth_rate, 1000); (new_insight, 1001)].
Proof.
  apply (push_branch_and_merge [growth] [(growth_rate, 1000); (new_insight, 1001)]).
  reflexivity.
Defined.

(** X8: candidates of one batch are compared with each other: when the
    second of two candidates matches the first, and neither matches an
    existing artifact, the first is added and then overwritten by the
    second, so that only the second is left; one addition and one update
    are counted. *)
Theorem second_candidate_overwrites_first prev c1 now1 c2 now2 :
  (forall e, e ∈ prev -> matches c1 e = false /\ matches c2 e = false) ->
  matches c2 c1 = true ->
  merge prev [(c1, now1); (c2, now2)]
  = mkMerge (prev ++ [replacement c2 now2]) 1 1.
Proof.
  intros Hnone H21. unfold merge. cbn [fold_left].
  rewrite (forEach_body_miss (mkMerge prev 0 0) c1 now1)
    by (apply findIndex_from_none; intros e He; now apply Hnone).
  rewrite (forEach_body_hit _ c2 now2 (List.length prev)).
  - cbn [updatedCharts chartsUpdated chartsAdded].
    rewrite insert_app_r_alt by lia. now rewrite Nat.sub_diag.
  - cbn [updatedCharts]. unfold findIndex.
    rewrite (findIndex_from_first (matches c2) _ 0 (List.length prev)
               (addition c1 now1)); [lia| | |].
    + rewrite lookup_app_r by lia. now rewrite Nat.sub_diag.
    + now rewrite matches_addition.
    + intros j y Hj Hy. rewrite lookup_app_l in Hy by exact Hj.
      apply Hnone. apply list_elem_of_lookup. eauto.
Qed.

Lemma second_candidate_overwrites_first_witness :
  merge [growth] [(costs, 1000); (revenue_new, 1001)]
  = mkMerge [growth; replacement revenue_new 1001] 1 1.
Proof.
  apply (second_candidate_overwrites_first [growth] costs 1000 revenue_new 1001).
  - intros e He. apply list_elem_of_singleton in He. subst e.
    split; reflexivity.
  - reflexivity.
Defined.




End MergeExtras.

(** ** The chat round trip *)

Module ChatFacts.
Import Js JsStringFacts Chat.

Lemma startsWith_spec s k :
  startsWith s k = true <-> exists b, s = (k ++ b)%string.
Proof.
  revert s; induction k as [|a k IH]; intros s; simpl.
  - split; [intros _; now exists s|intros _; destruct s; reflexivity].
  - destruct s as [|c s]; simpl.
    + split; [discriminate|intros [b H]; discriminate].
    + rewrite andb_true_iff, Ascii.eqb_eq, IH. split.
      * intros [-> [b ->]]. now exists b.
      * intros [b [= <- ->]]. split; [reflexivity|now exists b].
Qed.

Lemma includes_unfold s k :
  includes s k
  = startsWith s k
    || match s with EmptyString => false | String _ s' => includes s' k end.
Proof.
  destruct s as [|c s]; cbn [includes].
  - now destruct (startsWith "" k).
  - now destruct (startsWith (String c s) k).
Qed.

Lemma includes_spec s k :
  includes s k = true <-> exists a b, s = (a ++ k ++ b)%string.
Proof.
  induction s as [|c s IH]; rewrite includes_unfold, orb_true_iff, startsWith_spec.
  - split.
    + intros [[b H]|H]; [|discriminate]. now exists ""%string, b.
    + intros (a & b & H). left. destruct a; [|discriminate]. now exists b.
  - rewrite IH. split.
    + intros [[b H]|(a & b & ->)].
      * now exists ""%string, b.
      * now exists (String c a), b.
    + intros (a & b & H). destruct a as [|c' a].
      * left. now exists b.
      * right. injection H as _ ->. now exists a, b.
Qed.

Lemma append_assoc (a b c : string) : ((a ++ b) ++ c = a ++ (b ++ c))%string.
Proof.
  induction a as [|x a IH]; [reflexivity|].
  change (String x ((a ++ b) ++ c) = String x (a ++ (b ++ c)))%string.
  now rewrite IH.
Qed.

Lemma includes_extends s k a b :
  includes s k = true -> includes (a ++ s ++ b) k = true.
Proof.
  rewrite !includes_spec. intros (a' & b' & ->).
  exists (a ++ a')%string, (b' ++ b)%string.
  now rewrite !append_assoc.
Qed.

(** X10: text put before or after a chart request, in any letter case,
    leaves it a chart request. *)
Theorem isChartRequest_extends prompt before after :
  isChartRequest prompt = true ->
  isChartRequest (before ++ prompt ++ after) = true.
Proof.
  unfold isChartRequest. rewrite !existsb_exists.
  intros (k & Hk & Hin). exists k. split; [exact Hk|].
  rewrite !toLowerCase_app. now apply includes_extends.
Qed.

Lemma isChartRequest_extends_witness :
  isChartRequest "Please SHOW me the risks, thanks" = true.
Proof.
  apply (isChartRequest_extends "SHOW" "Please " " me the risks, thanks").
  reflexivity.
Defined.

(** X11: every prompt for which [handleSendMessage] arms its
    fifteen-second notice is a chart request for [processChatbotMessage],
    so it is sent to the chart endpoint. *)
Theorem expectsCharts_is_chart_request prompt :
  expectsCharts prompt = true -> isChartRequest prompt = true.
Proof.
  unfold expectsCharts, isChartRequest, chartKeywords. cbn [existsb].
  intros H. apply orb_true_iff in H as [H|H];
    [apply orb_true_iff in H as [H|H]|]; rewrite H;
    rewrite ?orb_true_r; reflexivity.
Qed.

Lemma expectsCharts_is_chart_request_witness :
  isChartRequest "Draw a Graph of the gaps" = true.
Proof.
  apply (expectsCharts_is_chart_request "Draw a Graph of the gaps").
  reflexivity.
Defined.

Section WithCharts.
Variables BackendChart Chart : Type.
Variable convertChartData : BackendChart -> Chart.
Variable type_error : string.


End WithCharts.

End ChatFacts.

(** ** [getCurrentPhaseIndex] and [formatTime] *)

Module TrackerFacts.
Import Js JsFacts JsStringFacts ReportCharts Poller Tracker.

(** X13: whatever name the backend reports, also none, the phase number
    handed to [onUpdate] lies between 1 and the number of phases. *)
Theorem getCurrentPhaseIndex_in_range phaseName :
  1 <= getCurrentPhaseIndex phaseName
       <= Z.of_nat (List.length Phases.ANALYSIS_PHASES).
Proof.
  unfold getCurrentPhaseIndex, findIndex.
  match goal with
  | |- context [findIndex_from ?p ?l 0] =>
      destruct (findIndex_from_bounds p l 0 ltac:(lia)) as [E|E]
  end.
  - rewrite E. simpl. lia.
  - destruct (0 <=? _) eqn:H; simpl in *; lia.
Qed.

(** X14: a reported name that equals the name of a phase up to letter
    case gives the position of that phase, counted from 1; an absent name
    gives 1, like the first phase. *)
Theorem getCurrentPhaseIndex_finds_phase k p n :
  Phases.ANALYSIS_PHASES !! k = Some p ->
  toLowerCase n = toLowerCase (Phases.name p) ->
  getCurrentPhaseIndex (Some n) = Z.of_nat k + 1
  /\ getCurrentPhaseIndex None = 1.
Proof.
  intros Hk Hn. split; [|reflexivity].
  unfold getCurrentPhaseIndex, findIndex, Phases.ANALYSIS_PHASES in *.
  cbn [findIndex_from Phases.name]. rewrite Hn.
  destruct k as [|[|[|[|[|[|k]]]]]]; simpl in Hk; try discriminate;
    injection Hk as <-; reflexivity.
Qed.

Lemma getCurrentPhaseIndex_finds_phase_witness :
  getCurrentPhaseIndex (Some "MARKET research"%string) = 3.
Proof.
  apply (getCurrentPhaseIndex_finds_phase 2
           (Phases.mkPhase "Market Research"
              "Analyzing market trends and competitors" 30)
           "MARKET research"); reflexivity.
Defined.

(** *** Decimal numerals *)

Lemma uint_digits d :
  string_forallb is_digit (DecimalString.NilEmpty.string_of_uint d) = true.
Proof. induction d; simpl; auto. Qed.

Lemma show_digits n : string_forallb is_digit (show n) = true.
Proof.
  unfold show, DecimalString.NilZero.string_of_uint.
  destruct (N.to_uint (Z.to_N n)) eqn:E; try reflexivity;
    rewrite <- E; apply uint_digits.
Qed.

Lemma to_uint_nonnil n : N.to_uint n <> Decimal.Nil.
Proof.
  destruct n as [|p]; simpl; [discriminate|].
  apply DecimalPos.Unsigned.to_uint_nonnil.
Qed.

Lemma show_inj a b : 0 <= a -> 0 <= b -> show a = show b -> a = b.
Proof.
  intros Ha Hb E. unfold show in E.
  assert (E' : Some (N.to_uint (Z.to_N a)) = Some (N.to_uint (Z.to_N b))).
  { rewrite <- (DecimalString.NilZero.usu _ (to_uint_nonnil (Z.to_N a))).
    rewrite <- (DecimalString.NilZero.usu _ (to_uint_nonnil (Z.to_N b))).
    now rewrite E. }
  injection E' as E'. apply DecimalN.Unsigned.to_uint_inj in E'. lia.
Qed.

(** A numeral ends at the first character that is not a digit. *)
Lemma numeral_prefix d1 c1 r1 d2 c2 r2 :
  string_forallb is_digit d1 = true -> string_forallb is_digit d2 = true ->
  is_digit c1 = false -> is_digit c2 = false ->
  (d1 ++ String c1 r1 = d2 ++ String c2 r2)%string ->
  d1 = d2 /\ c1 = c2 /\ r1 = r2.
Proof.
  intros H1 H2 Hc1 Hc2. revert d2 H2.
  induction d1 as [|a d1 IH]; intros [|b d2] H2 E; simpl in *.
  - injection E as -> ->. auto.
  - injection E as -> _. apply andb_true_iff in H2 as [H2 _]. congruence.
  - injection E as -> _. apply andb_true_iff in H1 as [H1 _]. congruence.
  - injection E as <- E.
    apply andb_true_iff in H1 as [_ H1]. apply andb_true_iff in H2 as [_ H2].
    destruct (IH H1 d2 H2 E) as (-> & -> & ->). auto.
Qed.

Lemma show_nonempty n : show n <> ""%string.
Proof.
  unfold show. intros E.
  assert (H := DecimalString.NilZero.usu _ (to_uint_nonnil (Z.to_N n))).
  rewrite E in H. discriminate H.
Qed.

(** X15: [formatTime] shows different positive whole durations
    differently, and none of them as ["--"], the text for a missing
    duration. *)
Theorem formatTime_injective a b :
  0 < a -> 0 < b ->
  formatTime a <> "--"%string
  /\ (formatTime a = formatTime b -> a = b).
Proof.
  intros Ha Hb.
  assert (Hform : forall s, 0 < s ->
    exists m r c rest,
      formatTime s = (show m ++ String c rest)%string
      /\ is_digit c = false
      /\ 0 <= m /\ 0 <= r < 60
      /\ ((c = "m"%char /\ rest = (" " ++ show r ++ "s")%string
           /\ s = 60 * m + r /\ 0 < m)
          \/ (c = "s"%char /\ rest = ""%string /\ s = m /\ m < 60))).
  { intros s Hs. unfold formatTime.
    destruct (Z.leb_spec s 0) as [|_]; [lia|].
    assert (Hr := Z.mod_pos_bound s 60 ltac:(lia)).
    assert (Hm := Z.div_pos s 60 ltac:(lia) ltac:(lia)).
    assert (Hd := Z.div_mod s 60 ltac:(lia)).
    destruct (Z.ltb_spec 0 (s / 60)) as [Hpos|Hzero].
    - exists (s / 60), (s mod 60), "m"%char, (" " ++ show (s mod 60) ++ "s")%string.
      split; [reflexivity|]. split; [reflexivity|].
      split; [lia|]. split; [lia|]. left. repeat split; lia.
    - exists (s mod 60), 0, "s"%char, ""%string.
      split; [reflexivity|]. split; [reflexivity|].
      split; [lia|]. split; [lia|]. right. repeat split; lia. }
  destruct (Hform a Ha) as (ma & ra & ca & resta & Ea & Hca & Hma & Hra & Hcase_a).
  split.
  - rewrite Ea. intros E.
    assert (Hne := show_nonempty ma).
    destruct (show ma) as [|x t] eqn:Es; [congruence|].
    assert (Hx : is_digit x = true).
    { assert (H := show_digits ma). rewrite Es in H. simpl in H.
      now apply andb_true_iff in H as [H _]. }
    injection E as -> _. discriminate Hx.
  - destruct (Hform b Hb) as (mb & rb & cb & restb & Eb & Hcb & Hmb & Hrb & Hcase_b).
    rewrite Ea, Eb. intros E.
    apply numeral_prefix in E as (Em & Ec & Er);
      [|apply show_digits|apply show_digits|assumption|assumption].
    apply show_inj in Em; [|lia|lia]. subst mb cb restb.
    destruct Hcase_a as [(-> & -> & -> & _)|(-> & -> & -> & _)];
      destruct Hcase_b as [(Hc & Hrest & -> & _)|(Hc & Hrest & -> & _)];
      try discriminate Hc; [|reflexivity].
    injection Hrest as Hrest.
    change (show ra ++ "s")%string with (show ra ++ String "s" "")%string in Hrest.
    change (show rb ++ "s")%string with (show rb ++ String "s" "")%string in Hrest.
    apply numeral_prefix in Hrest as (Er' & _ & _);
      [|apply show_digits|apply show_digits|reflexivity|reflexivity].
    apply show_inj in Er'; [|lia|lia]. now subst rb.
Qed.

Lemma formatTime_injective_witness :
  formatTime 125 = "2m 5s"%string /\ formatTime 125 <> "--"%string.
Proof.
  split; [reflexivity|].
  now destruct (formatTime_injective 125 45 ltac:(lia) ltac:(lia)).
Defined.

End TrackerFacts.

(** ** [createSimulatedProgress] *)

Module SimulationFacts.
Import Lqa.
Import Js Poller Tracker LogFacts.

Ltac qlra :=
  unfold Qdiv in *;
  change (/ 6)%Q with (1 # 6)%Q in *;
  change (/ 100)%Q with (1 # 100)%Q in *;
  lra.

Lemma updates_app o1 o2 : updates (o1 ++ o2) = updates o1 ++ updates o2.
Proof.
  induction o1 as [|o o1 IH]; simpl; [reflexivity|].
  destruct o; simpl; congruence.
Qed.

Lemma random_bounds u :
  Coordinator.is_random u = true -> (0 <= u)%Q /\ (u < 1)%Q.
Proof.
  unfold Coordinator.is_random. intros H.
  apply andb_true_iff in H as [H0 H1].
  apply Qle_bool_iff in H0. apply negb_true_iff in H1.
  split; [exact H0|].
  apply Qnot_le_lt. intros Hle. apply Qle_bool_iff in Hle. congruence.
Qed.

(** The three ways a tick of a live simulation ends. *)
Lemma tick_cases session hasComplete now random s ph :
  Phases.ANALYSIS_PHASES !! currentPhaseIndex s = Some ph ->
  let u := update_at session now s ph in
  let pp' := (phaseProgress s + (random * 8 + 2))%Q in
  ((pp' < 100)%Q
   /\ tick session hasComplete now random s
      = (mkSimulation (currentPhaseIndex s) pp' (startTime s) true, [Progress u]))
  \/ ((100 <= pp')%Q /\ (S (currentPhaseIndex s) < 6)%nat
      /\ tick session hasComplete now random s
         = (mkSimulation (S (currentPhaseIndex s)) 0 (startTime s) true,
            [Progress u]))
  \/ ((100 <= pp')%Q /\ (6 <= S (currentPhaseIndex s))%nat
      /\ tick session hasComplete now random s
         = (mkSimulation (S (currentPhaseIndex s)) 0 (startTime s) false,
            Progress u :: (if hasComplete then [Complete] else []))).
Proof.
  intros Hph u pp'. unfold tick. rewrite Hph. fold u. fold pp'.
  destruct (Qle_bool 100 pp') eqn:E.
  - apply Qle_bool_iff in E. right.
    change (List.length Phases.ANALYSIS_PHASES) with 6%nat.
    destruct (Nat.leb_spec 6 (S (currentPhaseIndex s))).
    + right. auto.
    + left. auto.
  - left. split; [|reflexivity].
    apply Qnot_le_lt. intros Hle. apply Qle_bool_iff in Hle. congruence.
Qed.

Lemma phase_count_six : phase_count = 6%Q.
Proof. reflexivity. Qed.

(** The reported percentage follows [100 * index + phaseProgress]. *)
Lemma reported_le s s' :
  (100 * inject_Z (Z.of_nat (currentPhaseIndex s)) + phaseProgress s
   <= 100 * inject_Z (Z.of_nat (currentPhaseIndex s')) + phaseProgress s')%Q ->
  reported s <= reported s'.
Proof.
  intros H. unfold reported. apply Z.min_le_compat_r, round_le.
  rewrite phase_count_six.
  set (k := inject_Z (Z.of_nat (currentPhaseIndex s))) in *.
  set (k' := inject_Z (Z.of_nat (currentPhaseIndex s'))) in *.
  clearbody k k'. qlra.
Qed.

Lemma inject_succ k :
  inject_Z (Z.of_nat (S k)) == inject_Z (Z.of_nat k) + 1.
Proof. rewrite Nat2Z.inj_succ, <- Z.add_1_r, inject_Z_plus. reflexivity. Qed.

Lemma round_nonneg x : (0 <= x)%Q -> 0 <= Js.round x.
Proof.
  intros H. change 0 with (Js.round 0). now apply round_le.
Qed.

Lemma reported_bounds s :
  (currentPhaseIndex s <= 6)%nat ->
  (0 <= phaseProgress s)%Q -> (phaseProgress s < 100)%Q ->
  0 <= reported s <= 100
  /\ band_low (Z.of_nat (currentPhaseIndex s) + 1) <= reported s
  /\ reported s <= band_high (Z.of_nat (currentPhaseIndex s) + 1).
Proof.
  intros Hsix H0 H100. unfold reported, band_low, band_high.
  rewrite !phase_count_six.
  replace (Z.of_nat (currentPhaseIndex s) + 1 - 1)
    with (Z.of_nat (currentPhaseIndex s)) by lia.
  rewrite inject_Z_plus. change (inject_Z 1) with 1%Q.
  assert (Hk : (0 <= inject_Z (Z.of_nat (currentPhaseIndex s)))%Q).
  { change 0%Q with (inject_Z 0). rewrite <- Zle_Qle. lia. }
  assert (Hk6 : (inject_Z (Z.of_nat (currentPhaseIndex s)) <= 6)%Q).
  { change 6%Q with (inject_Z 6). rewrite <- Zle_Qle. lia. }
  set (k := inject_Z (Z.of_nat (currentPhaseIndex s))) in *. clearbody k.
  assert (Hlow : Js.round (100 * k / 6)
                 <= Js.round ((k / 6 + phaseProgress s / 100 / 6) * 100))
    by (apply round_le; qlra).
  assert (Hhigh : Js.round ((k / 6 + phaseProgress s / 100 / 6) * 100)
                  <= Js.round (100 * (k + 1) / 6))
    by (apply round_le; qlra).
  assert (Hpos : 0 <= Js.round ((k / 6 + phaseProgress s / 100 / 6) * 100))
    by (apply round_nonneg; qlra).
  assert (Hcap : Js.round (100 * k / 6) <= 100)
    by (apply (Z.le_trans _ (Js.round 100));
        [apply round_le; qlra|vm_compute; discriminate]).
  lia.
Qed.

Lemma counted_tick session hasComplete now random s n s1 out1 :
  counted s n -> live s = true -> Coordinator.is_random random = true ->
  tick session hasComplete now random s = (s1, out1) ->
  counted s1 (n + 1).
Proof.
  intros (H6 & Hlive & _ & H0 & H100 & Hup & Hlow) Hl Hr Htick.
  specialize (Hlive Hl).
  destruct (random_bounds random Hr) as [Hr0 Hr1].
  destruct (lookup_lt_is_Some_2 Phases.ANALYSIS_PHASES (currentPhaseIndex s))
    as [ph Hph]; [exact Hlive|].
  set (k := Z.of_nat (currentPhaseIndex s)) in *.
  assert (HA : 2 * (n - 50 * k) < 100).
  { rewrite Zlt_Qlt. change (inject_Z 100) with 100%Q. lra. }
  destruct (tick_cases session hasComplete now random s ph Hph)
    as [[Hlt E]|[(Hge & Hnext & E)|(Hge & Hnext & E)]];
    rewrite E in Htick; injection Htick as <- _; unfold counted;
    cbn [currentPhaseIndex phaseProgress live].
  - fold k. split; [exact H6|]. split; [auto|].
    split; [intros E6; lia|]. split; [lra|]. split; [exact Hlt|].
    replace (2 * (n + 1 - 50 * k)) with (2 * (n - 50 * k) + 2) by lia.
    replace (10 * (n + 1 - 11 * k)) with (10 * (n - 11 * k) + 10) by lia.
    rewrite !inject_Z_plus.
    change (inject_Z 2) with 2%Q. change (inject_Z 10) with 10%Q.
    split; lra.
  - assert (HB : 90 < 10 * (n - 11 * k)).
    { rewrite Zlt_Qlt. change (inject_Z 90) with 90%Q. lra. }
    rewrite Nat2Z.inj_succ. fold k.
    split; [lia|]. split; [auto|]. split; [reflexivity|].
    split; [lra|]. split; [reflexivity|].
    change 0%Q with (inject_Z 0). rewrite <- !Zle_Qle. lia.
  - assert (HB : 90 < 10 * (n - 11 * k)).
    { rewrite Zlt_Qlt. change (inject_Z 90) with 90%Q. lra. }
    rewrite Nat2Z.inj_succ. fold k.
    split; [lia|]. split; [discriminate|]. split; [reflexivity|].
    split; [lra|]. split; [reflexivity|].
    change 0%Q with (inject_Z 0). rewrite <- !Zle_Qle. lia.
Qed.

Lemma well_reported_tick session hasComplete now random s n s1 out1 us :
  counted s n -> well_reported s us ->
  live s = true -> Coordinator.is_random random = true ->
  tick session hasComplete now random s = (s1, out1) ->
  well_reported s1 (us ++ updates out1).
Proof.
  intros (H6 & Hlive & _ & H0 & H100 & _) [Hnd Hus] Hl Hr Htick.
  specialize (Hlive Hl).
  destruct (random_bounds random Hr) as [Hr0 Hr1].
  destruct (lookup_lt_is_Some_2 Phases.ANALYSIS_PHASES (currentPhaseIndex s))
    as [ph Hph]; [exact Hlive|].
  assert (Hup : updates out1 = [update_at session now s ph]
                /\ reported s <= reported s1).
  { destruct (tick_cases session hasComplete now random s ph Hph)
      as [[Hlt E]|[(Hge & Hnext & E)|(Hge & Hnext & E)]];
      rewrite E in Htick; injection Htick as <- <-.
    - split; [reflexivity|]. apply reported_le.
      cbn [currentPhaseIndex phaseProgress]. lra.
    - split; [reflexivity|]. apply reported_le.
      cbn [currentPhaseIndex phaseProgress]. rewrite inject_succ. lra.
    - split; [now destruct hasComplete|]. apply reported_le.
      cbn [currentPhaseIndex phaseProgress]. rewrite inject_succ. lra. }
  destruct Hup as [-> Hle].
  destruct (reported_bounds s H6 H0 H100) as (Hb & Hband_low & Hband_high).
  split.
  - rewrite List.map_app. cbn [List.map update_at percentage].
    apply nondecreasing_snoc; [exact Hnd|].
    intros p Hp. apply list_elem_of_In, List.in_map_iff in Hp as (u & <- & Hu).
    apply list_elem_of_In in Hu. now destruct (Hus u Hu) as (_ & Hu' & _).
  - intros u Hu. apply elem_of_app in Hu as [Hu|Hu].
    + destruct (Hus u Hu) as (Hp & Hrep & Hrest).
      split; [exact Hp|]. split; [lia|exact Hrest].
    + apply list_elem_of_singleton in Hu. subst u.
      cbn [update_at percentage currentPhase totalPhases phase currentTask
           estimatedTimeRemaining].
      change (Z.of_nat (List.length Phases.ANALYSIS_PHASES)) with 6.
      split; [exact Hb|]. split; [exact Hle|]. split; [lia|].
      split; [reflexivity|]. split.
      * exists ph.
        replace (Z.to_nat (Z.of_nat (currentPhaseIndex s) + 1 - 1))
          with (currentPhaseIndex s) by lia.
        auto.
      * split; [lia|apply Z.le_max_l].
Qed.

Lemma no_complete_filter outs :
  ~ Complete ∈ outs -> List.filter is_Complete outs = [].
Proof.
  induction outs as [|o outs IH]; intros H; [reflexivity|].
  simpl. destruct o; simpl.
  - apply IH. intros Hin. apply H. now constructor.
  - exfalso. apply H. constructor.
  - apply IH. intros Hin. apply H. now constructor.
Qed.

Lemma complete_is_last outs u pre post :
  ~ Complete ∈ outs ->
  outs ++ [Progress u; Complete] = pre ++ Complete :: post -> post = [].
Proof.
  revert pre; induction outs as [|o outs IH]; intros pre Hno E.
  - destruct pre as [|a [|b pre]]; simpl in E; try discriminate.
    + now injection E as _ <-.
    + injection E as _ _ E. destruct pre; discriminate.
  - destruct pre as [|a pre]; simpl in E.
    + injection E as -> _. exfalso. apply Hno. constructor.
    + injection E as _ E. apply (IH pre); [|exact E].
      intros Hin. apply Hno. now constructor.
Qed.

Lemma finished_tick session hasComplete now random s s1 out1 outs :
  finished s outs -> (currentPhaseIndex s < 6)%nat -> live s = true ->
  tick session hasComplete now random s = (s1, out1) ->
  finished s1 (outs ++ out1).
Proof.
  intros (Hdone & Hthrown & Hcount & Hlast) Hidx Hl Htick.
  assert (Hno : ~ Complete ∈ outs).
  { intros Hin. destruct (Hdone Hin) as [_ Hd]. congruence. }
  destruct (lookup_lt_is_Some_2 Phases.ANALYSIS_PHASES (currentPhaseIndex s))
    as [ph Hph]; [exact Hidx|].
  assert (Hquiet : forall s' u,
    finished s' (outs ++ [Progress u])).
  { intros s' u.
    assert (Hno' : ~ Complete ∈ outs ++ [Progress u]).
    { intros Hin. apply elem_of_app in Hin as [Hin|Hin]; [auto|].
      apply list_elem_of_singleton in Hin. discriminate. }
    split; [intros Hin; contradiction|]. split.
    - intros Hin. apply elem_of_app in Hin as [Hin|Hin]; [auto|].
      apply list_elem_of_singleton in Hin. discriminate.
    - split; [rewrite (no_complete_filter _ Hno'); simpl; lia|].
      intros pre post Hsplit. exfalso. apply Hno'. rewrite Hsplit.
      apply elem_of_app. right. constructor. }
  destruct (tick_cases session hasComplete now random s ph Hph)
    as [[Hlt E]|[(Hge & Hnext & E)|(Hge & Hnext & E)]];
    rewrite E in Htick; injection Htick as <- <-; try apply Hquiet.
  destruct hasComplete; [|apply Hquiet].
  split; [intros _; cbn [currentPhaseIndex live]; split; [lia|reflexivity]|].
  split.
  - intros Hin. apply elem_of_app in Hin as [Hin|Hin]; [auto|].
    apply list_elem_of_In in Hin. simpl in Hin.
    destruct Hin as [|[|[]]]; discriminate.
  - split.
    + rewrite List.filter_app, (no_complete_filter _ Hno). simpl. lia.
    + intros pre post Hsplit.
      exact (complete_is_last outs _ pre post Hno Hsplit).
Qed.

(** Every step keeps [consistent]. *)
Lemma consistent_step session hasComplete ev s outs s1 out1 :
  consistent s outs ->
  step session hasComplete ev s = Some (s1, out1) ->
  consistent s1 (outs ++ out1).
Proof.
  intros (Hc & Hf & Hw) Hstep. destruct ev as [now random|]; simpl in Hstep.
  - destruct (live s) eqn:Hl; [|discriminate]. simpl in Hstep.
    destruct (Coordinator.is_random random) eqn:Hr; [|discriminate].
    injection Hstep as Hstep.
    assert (Hidx : (currentPhaseIndex s < 6)%nat) by (now apply Hc).
    assert (Hn : Z.of_nat (List.length (updates (outs ++ out1)))
                 = Z.of_nat (List.length (updates outs)) + 1).
    { destruct (lookup_lt_is_Some_2 Phases.ANALYSIS_PHASES (currentPhaseIndex s))
        as [ph Hph]; [exact Hidx|].
      rewrite updates_app, length_app.
      destruct (tick_cases session hasComplete now random s ph Hph)
        as [[_ E]|[(_ & _ & E)|(_ & _ & E)]];
        rewrite E in Hstep; injection Hstep as _ <-;
        try destruct hasComplete; simpl; lia. }
    split; [|split].
    + rewrite Hn. now apply (counted_tick session hasComplete now random s _ s1 out1).
    + now apply (finished_tick session hasComplete now random s).
    + rewrite updates_app.
      now apply (well_reported_tick session hasComplete now random s
                   (Z.of_nat (List.length (updates outs)))).
  - injection Hstep as <- <-. rewrite app_nil_r.
    destruct Hc as (H6 & Hlive & Hzero & Hrest).
    destruct Hf as (Hdone & Hf).
    split; [|split].
    + split; [exact H6|]. split; [discriminate|]. split; [exact Hzero|exact Hrest].
    + split; [|exact Hf]. intros Hin. destruct (Hdone Hin) as [E _].
      split; [exact E|reflexivity].
    + exact Hw.
Qed.

Lemma consistent_run session hasComplete evs : forall s acc s' outs,
  consistent s acc ->
  run session hasComplete evs s = Some (s', outs) ->
  consistent s' (acc ++ outs).
Proof.
  induction evs as [|ev evs IH]; intros s acc s' outs Hc Hrun; simpl in Hrun.
  - injection Hrun as <- <-. now rewrite app_nil_r.
  - destruct (step session hasComplete ev s) as [[s1 out1]|] eqn:E; [|discriminate].
    destruct (run session hasComplete evs s1) as [[s2 out2]|] eqn:E2; [|discriminate].
    injection Hrun as <- <-. rewrite app_assoc.
    apply (IH s1); [|exact E2].
    now apply (consistent_step session hasComplete ev s).
Qed.

Lemma consistent_create now : consistent (createSimulatedProgress now) [].
Proof.
  split; [|split].
  - unfold counted. cbn. repeat split; try lia; try discriminate; try reflexivity.
  - split; [intros H; inversion H|]. split; [intros H; inversion H|].
    split; [simpl; lia|]. intros [|a pre] post E; discriminate.
  - split; [reflexivity|]. intros u H. inversion H.
Qed.

Lemma consistent_reached session hasComplete evs now s outs :
  run session hasComplete evs (createSimulatedProgress now) = Some (s, outs) ->
  consistent s outs.
Proof.
  intros H.
  apply (consistent_run session hasComplete evs _ [] s outs (consistent_create now) H).
Qed.

(** X16: the percentages that a simulation started with
    [createSimulatedProgress] hands to [onProgress] never decrease and lie
    between 0 and 100, and its timer callback never throws: it never
    reads past the last phase. *)
Theorem simulation_percentages_ordered session hasComplete evs now s outs :
  run session hasComplete evs (createSimulatedProgress now) = Some (s, outs) ->
  Coordinator.nondecreasing (List.map percentage (updates outs)) = true
  /\ (forall u, u ∈ updates outs -> 0 <= percentage u <= 100)
  /\ ~ Thrown ∈ outs.
Proof.
  intros H.
  destruct (consistent_reached _ _ _ _ _ _ H) as (_ & (_ & Hthrown & _) & Hnd & Hus).
  split; [exact Hnd|]. split; [|exact Hthrown].
  intros u Hu. now destruct (Hus u Hu).
Qed.

Lemma simulation_percentages_ordered_witness :
  exists s outs,
    run "s1" true whole_run (createSimulatedProgress 0) = Some (s, outs)
    /\ List.length (updates outs) = 72%nat
    /\ Coordinator.nondecreasing (List.map percentage (updates outs)) = true.
Proof.
  eexists. eexists. split; [vm_compute; reflexivity|]. split; [reflexivity|].
  eapply (simulation_percentages_ordered "s1" true whole_run 0).
  vm_compute. reflexivity.
Defined.

(** X17: every update of a simulation names the phase whose number it
    carries, a number between 1 and [totalPhases = 6]; its percentage lies
    in that phase's sixth of the bar; its remaining time is not negative. *)
Theorem simulation_updates_consistent session hasComplete evs now s outs u :
  run session hasComplete evs (createSimulatedProgress now) = Some (s, outs) ->
  u ∈ updates outs ->
  1 <= currentPhase u <= totalPhases u
  /\ totalPhases u = 6
  /\ (exists ph, Phases.ANALYSIS_PHASES !! Z.to_nat (currentPhase u - 1) = Some ph
                 /\ phase u = Phases.name ph
                 /\ currentTask u = Phases.description ph)
  /\ band_low (currentPhase u) <= percentage u <= band_high (currentPhase u)
  /\ 0 <= estimatedTimeRemaining u.
Proof.
  intros H Hu.
  destruct (consistent_reached _ _ _ _ _ _ H) as (_ & _ & _ & Hus).
  now destruct (Hus u Hu) as (_ & _ & Hrest).
Qed.

Lemma simulation_updates_consistent_witness :
  exists u, currentPhase u = 2 /\ phase u = "Data Collection"%string
            /\ band_low 2 = 17 /\ band_high 2 = 33
            /\ 17 <= percentage u <= 33.
Proof.
  assert (E : exists s outs u,
    run "s1" true (steady_ticks 20) (createSimulatedProgress 0) = Some (s, outs)
    /\ u ∈ updates outs /\ currentPhase u = 2
    /\ phase u = "Data Collection"%string).
  { eexists. eexists. eexists. split; [vm_compute; reflexivity|].
    split; [apply list_elem_of_lookup; exists 15%nat; reflexivity|].
    split; reflexivity. }
  destruct E as (s & outs & u & Hrun & Hu & Hk & Hname).
  exists u. split; [exact Hk|]. split; [exact Hname|].
  split; [reflexivity|]. split; [reflexivity|].
  destruct (simulation_updates_consistent "s1" true (steady_ticks 20) 0 s outs u
              Hrun Hu) as (_ & _ & _ & Hband & _).
  rewrite Hk in Hband. exact Hband.
Defined.

(** X18: a simulation calls [onComplete] at most once, as its last call,
    and then its interval is cleared, so that nothing follows. *)
Theorem simulation_completes_once session hasComplete evs now s outs :
  run session hasComplete evs (createSimulatedProgress now) = Some (s, outs) ->
  (List.length (List.filter is_Complete outs) <= 1)%nat
  /\ (forall pre post, outs = pre ++ Complete :: post -> post = [])
  /\ (Complete ∈ outs -> live s = false).
Proof.
  intros H.
  destruct (consistent_reached _ _ _ _ _ _ H)
    as (_ & (Hdone & _ & Hcount & Hlast) & _).
  split; [exact Hcount|]. split; [exact Hlast|].
  intros Hin. now destruct (Hdone Hin).
Qed.

Lemma simulation_completes_once_witness :
  exists s outs,
    run "s1" true whole_run (createSimulatedProgress 0) = Some (s, outs)
    /\ last outs = Some Complete
    /\ live s = false.
Proof.
  eexists. eexists. split; [vm_compute; reflexivity|]. split; [reflexivity|].
  eapply (simulation_completes_once "s1" true whole_run 0).
  - vm_compute. reflexivity.
  - apply list_elem_of_In. vm_compute. do 72 right. left. reflexivity.
Defined.







End SimulationFacts.

(** ** More about a session: what the caller is called with, and which
       timers stay *)

Module SessionExtras.
Import Loop Poller Coordinator ProgressStatements Invariants SessionStatements.
Import LoopFacts LogFacts SessionFacts ResumeFacts.

Lemma turn_nothing c : turn_calls c [].
Proof. now left. Qed.

Lemma fields_clear_fallback w :
  cbs (clear_fallback w) = cbs w
  /\ progressTracker (clear_fallback w) = progressTracker w
  /\ fallbackInterval (clear_fallback w) = fallbackInterval w
  /\ pending (clear_fallback w) = pending w
  /\ log (clear_fallback w) = log w.
Proof.
  unfold clear_fallback. destruct (fallbackInterval w) eqn:E; simpl; auto.
Qed.

Lemma fields_startFallbackProgress w :
  cbs (startFallbackProgress w) = cbs w
  /\ progressTracker (startFallbackProgress w) = progressTracker w
  /\ fallbackInterval (startFallbackProgress w) = Some (next_handle (loop w))
  /\ loop (startFallbackProgress w)
     = snd (schedule (mkTimer (FallbackTick 0 0) true) (loop w))
  /\ pending (startFallbackProgress w) = pending w
  /\ log (startFallbackProgress w) = log w.
Proof.
  unfold startFallbackProgress, setInterval, schedule. simpl.
  repeat split; reflexivity.
Qed.

(** The simulator completes when its counter has reached 100. *)
Lemma completes_at_100 cp ph phase :
  Phases.ANALYSIS_PHASES !! ph = Some phase ->
  (List.length Phases.ANALYSIS_PHASES
     <=? (if Qle_bool (inject_Z (Z.of_nat (ph + 1)) * phase_share) cp
          then S ph else ph))%nat
  || Qle_bool 100 cp = true ->
  (100 <= cp)%Q.
Proof.
  intros Hph Hc.
  apply orb_true_iff in Hc as [Hc|Hc]; [|now apply Qle_bool_iff].
  apply lookup_lt_Some in Hph. simpl in Hph.
  destruct (Qle_bool _ cp) eqn:Hq.
  - apply Nat.leb_le in Hc. simpl in Hc.
    assert (ph = 5%nat) by lia. subst ph.
    apply Qle_bool_iff in Hq.
    assert (E : (inject_Z (Z.of_nat (5 + 1)) * phase_share == 100)%Q)
      by reflexivity.
    now rewrite E in Hq.
  - apply Nat.leb_le in Hc. simpl in Hc. lia.
Qed.

Lemma completes_full cp ph phase :
  Phases.ANALYSIS_PHASES !! ph = Some phase ->
  (List.length Phases.ANALYSIS_PHASES
     <=? (if Qle_bool (inject_Z (Z.of_nat (ph + 1)) * phase_share) cp
          then S ph else ph))%nat
  || Qle_bool 100 cp = true ->
  100 <= Z.min (Js.round cp) 100.
Proof.
  intros Hph Hc.
  assert (Hcp := completes_at_100 cp ph phase Hph Hc).
  apply Z.min_glb; [|lia].
  apply (Z.le_trans _ (Js.round 100)); [vm_compute; discriminate|].
  now apply round_le.
Qed.

Lemma fallbackTick_calls self cp ph u w :
  cbs (fallbackTick self cp ph u w) = cbs w
  /\ progressTracker (fallbackTick self cp ph u w) = progressTracker w
  /\ pending (fallbackTick self cp ph u w) = pending w
  /\ exists chunk, log (fallbackTick self cp ph u w) = log w ++ chunk
                   /\ turn_calls (cbs w) chunk.
Proof.
  unfold fallbackTick.
  destruct (Phases.ANALYSIS_PHASES !! ph) as [phase|] eqn:Hph.
  2:{ destruct (fields_clear_fallback w) as (-> & -> & _ & -> & ->).
      repeat split. exists []. rewrite app_nil_r. split; [reflexivity|now left]. }
  set (cp' := (cp + (u * 3 + 1))%Q).
  destruct (_ || _) eqn:Hc.
  - apply (completes_full cp' ph phase Hph) in Hc.
    set (p := Z.min (Js.round cp') 100) in *.
    set (w2 := set_loop _ _).
    destruct (fields_clear_fallback w2) as (Ec & Et & _ & Ep & El).
    assert (E2 : cbs w2 = cbs w /\ progressTracker w2 = progressTracker w
                 /\ pending w2 = pending w
                 /\ log w2 = log w ++ (if onProgress (cbs w)
                                       then [OnProgress (Simulated self)
                                               (step_name (Phases.name phase)) p]
                                       else [])).
    { unfold w2, emit_progress. destruct (onProgress (cbs w)); simpl;
        rewrite ?app_nil_r; auto. }
    destruct E2 as (Ec2 & Et2 & Ep2 & El2).
    rewrite Ec, Ec2.
    destruct (onComplete (cbs w)); cbn [emit cbs progressTracker pending log];
      rewrite ?Ec, ?Et, ?Ep, ?El, ?Ec2, ?Et2, ?Ep2, ?El2;
      repeat split.
    + eexists. rewrite <- app_assoc. split; [reflexivity|].
      right. exists (Simulated self), (step_name (Phases.name phase)), p.
      split; [discriminate|]. right. split; [exact Hc|reflexivity].
    + destruct (onProgress (cbs w)).
      * eexists. split; [reflexivity|].
        right. exists (Simulated self), (step_name (Phases.name phase)), p.
        split; [discriminate|]. now left.
      * exists []. split; [reflexivity|now left].
  - unfold emit_progress. destruct (onProgress (cbs w)); simpl; repeat split.
    + eexists. split; [reflexivity|].
      right. eexists _, _, _. split; [|left; reflexivity]. discriminate.
    + exists []. rewrite app_nil_r. split; [reflexivity|now left].
Qed.

Lemma progressCallback_calls u w :
  cbs (Coordinator.progressCallback u w) = cbs w
  /\ progressTracker (Coordinator.progressCallback u w) = progressTracker w
  /\ pending (Coordinator.progressCallback u w) = pending w
  /\ exists chunk, log (Coordinator.progressCallback u w) = log w ++ chunk
                   /\ turn_calls (cbs w) chunk.
Proof.
  unfold Coordinator.progressCallback, emit_progress.
  destruct (onProgress (cbs w)) eqn:Hp; cbn [emit cbs].
  - destruct ((100 <=? percentage u) && onComplete (cbs w)) eqn:Hc;
      cbn [emit cbs progressTracker pending log]; repeat split.
    + apply andb_true_iff in Hc as [Hge _]. apply Z.leb_le in Hge.
      eexists. rewrite <- app_assoc. split; [reflexivity|].
      right. exists Polled, (step_name (phase u)), (percentage u).
      split; [discriminate|]. right. rewrite Hp. now split.
    + eexists. split; [reflexivity|].
      right. exists Polled, (step_name (phase u)), (percentage u).
      split; [discriminate|]. now left.
  - destruct ((100 <=? percentage u) && onComplete (cbs w)) eqn:Hc;
      cbn [emit cbs progressTracker pending log]; repeat split.
    + apply andb_true_iff in Hc as [Hge _]. apply Z.leb_le in Hge.
      eexists. split; [reflexivity|].
      right. exists Polled, (step_name (phase u)), (percentage u).
      split; [discriminate|]. right. rewrite Hp. now split.
    + exists []. rewrite app_nil_r. split; [reflexivity|now left].
Qed.

Lemma resume_calls r t l :
  exists c, (snd (fetchProgress_resume r t l) = [] \/
             snd (fetchProgress_resume r t l) = [c]).
Proof.
  destruct (fetchProgress_resume_cases r t l)
    as [[_ E]|[(_ & _ & E)|(pr & _ & _ & _ & E)]]; rewrite E; simpl.
  - exists CallError. destruct (Poller.errorCallback t); auto.
  - exists CallError. auto.
  - exists (CallProgress (update_of pr)). destruct (Poller.progressCallback t); auto.
Qed.

Lemma dispatch_calls c w :
  cbs (dispatch c w) = cbs w
  /\ progressTracker (dispatch c w) = progressTracker w
  /\ pending (dispatch c w) = pending w
  /\ exists chunk, log (dispatch c w) = log w ++ chunk
                   /\ turn_calls (cbs w) chunk.
Proof.
  destruct c as [u|]; cbn [dispatch].
  - apply progressCallback_calls.
  - unfold Coordinator.errorCallback.
    destruct (fields_startFallbackProgress w) as (-> & -> & _ & _ & -> & ->).
    repeat split. exists []. rewrite app_nil_r. split; [reflexivity|now left].
Qed.

(** A turn of the event loop only appends to the calls made so far. *)
Lemma step_calls ev w w' :
  step ev w = Some w' ->
  cbs w' = cbs w
  /\ exists chunk, log w' = log w ++ chunk /\ turn_calls (cbs w) chunk.
Proof.
  unfold step. destruct ev as [h u|r].
  - destruct (is_random u); [|discriminate].
    destruct (timers (loop w) !! h) as [tm|]; [|discriminate].
    intros [= <-].
    set (w1 := if repeats tm then w else set_loop _ w).
    assert (E1 : cbs w1 = cbs w /\ log w1 = log w)
      by (unfold w1; destruct (repeats tm); split; reflexivity).
    destruct E1 as [Ec El]. rewrite <- Ec, <- El. clearbody w1.
    destruct (callback tm) as [|cp ph|]; cbn [run_callback].
    + unfold pollerTick. destruct (progressTracker w1) as [t|];
        [destruct (fetchProgress_sends t)|]; simpl; split; try reflexivity;
        exists []; rewrite app_nil_r; (split; [reflexivity|now left]).
    + destruct (fallbackTick_calls h cp ph u w1) as (H1 & _ & _ & H2). auto.
    + unfold autoFallback. rewrite orb_negb_l.
      destruct (fields_startFallbackProgress w1) as (-> & _ & _ & _ & _ & ->).
      split; [reflexivity|].
      exists []. rewrite app_nil_r. split; [reflexivity|now left].
  - destruct (pending w) as [|n]; [discriminate|].
    destruct (progressTracker w) as [t|]; [|discriminate].
    destruct (resume_calls r t (loop w)) as [c Hcalls].
    destruct (fetchProgress_resume r t (loop w)) as [[t' l'] calls].
    intros [= <-]. simpl in Hcalls.
    destruct Hcalls as [->| ->]; simpl.
    + split; [reflexivity|].
      exists []. rewrite app_nil_r. split; [reflexivity|now left].
    + destruct (dispatch_calls c (mkWorld (cbs w) (Some t') (fallbackInterval w)
                                    l' n (log w))) as (H1 & _ & _ & H2).
      auto.
Qed.

Lemma reachable_ind (P : World -> Prop) c :
  P (generateReportStreamWithProgress c) ->
  (forall ev w w', reachable c w -> P w -> step ev w = Some w' -> P w') ->
  forall w, reachable c w -> P w.
Proof.
  intros Hstart Hstep w [evs Hrun]. revert w Hrun.
  induction evs as [|ev evs IH] using rev_ind; intros w Hrun.
  - injection Hrun as <-. exact Hstart.
  - assert (Happ : forall evs1 evs2 w0,
      run (evs1 ++ evs2) w0
      = match run evs1 w0 with Some w1 => run evs2 w1 | None => None end).
    { induction evs1 as [|e evs1 IH1]; intros evs2 w0; simpl; [reflexivity|].
      destruct (step e w0); [apply IH1|reflexivity]. }
    rewrite Happ in Hrun.
    destruct (run evs (generateReportStreamWithProgress c)) as [w1|] eqn:E1;
      [|discriminate].
    simpl in Hrun. destruct (step ev w1) as [w2|] eqn:E2; [|discriminate].
    injection Hrun as <-.
    apply (Hstep ev w1 w2); [now exists evs|now apply IH|exact E2].
Qed.

Lemma cbs_reachable c w : reachable c w -> cbs w = c.
Proof.
  apply (reachable_ind (fun w => cbs w = c)).
  - now rewrite start_world.
  - intros ev w0 w' _ Hc Hs. apply step_calls in Hs as [-> _]. exact Hc.
Qed.

(** X21: when [onProgress] is passed, the first call that a session makes
    is the "connected" event with progress 0, and that event is never
    sent again. *)
Theorem connected_event_first_and_once c w :
  onProgress c = true -> reachable c w -> opens_connected (log w).
Proof.
  intros Hon Hr. revert w Hr. apply reachable_ind.
  - rewrite start_world, Hon. simpl. exists []. split; [reflexivity|].
    intros ph p H. inversion H.
  - intros ev w w' _ (rest & El & Hrest) Hs.
    apply step_calls in Hs as (_ & chunk & El' & Hchunk).
    exists (rest ++ chunk). rewrite El', El. split; [reflexivity|].
    intros ph p Hin. apply elem_of_app in Hin as [Hin|Hin];
      [exact (Hrest ph p Hin)|].
    destruct Hchunk as [->|(src & ph0 & p0 & Hsrc & [->|[_ ->]])].
    + inversion Hin.
    + apply list_elem_of_singleton in Hin. congruence.
    + destruct (onProgress (cbs w)); simpl in Hin.
      * apply elem_of_cons in Hin as [Hin|Hin]; [congruence|].
        apply list_elem_of_singleton in Hin. discriminate.
      * apply list_elem_of_singleton in Hin. discriminate.
Qed.

Lemma connected_event_first_and_once_witness :
  exists w, session session_completed_twice = Some w
            /\ opens_connected (log w).
Proof.
  assert (E : exists w, session session_completed_twice = Some w)
    by (eexists; vm_compute; reflexivity).
  destruct E as [w Hw]. exists w. split; [exact Hw|].
  apply (connected_event_first_and_once all_callbacks w); [reflexivity|].
  exists session_completed_twice. exact Hw.
Defined.

(** X22: when [onProgress] is passed, every call of [onComplete] comes
    right behind a call of [onProgress] with a progress of 100 or more,
    whichever source completes. *)
Theorem completion_follows_full_progress c w :
  onProgress c = true -> reachable c w -> complete_after_full (log w).
Proof.
  intros Hon Hr. revert w Hr. apply reachable_ind.
  - rewrite start_world, Hon. intros [|i] H; simpl in H; discriminate.
  - intros ev w w' Hr IH Hs.
    apply step_calls in Hs as (_ & chunk & El' & Hchunk).
    unfold turn_calls in Hchunk.
    rewrite (cbs_reachable c w Hr), Hon in Hchunk.
    rewrite El'. intros i Hi.
    destruct (decide (i < List.length (log w))%nat) as [Hlt|Hge].
    + rewrite lookup_app_l in Hi by exact Hlt.
      destruct (IH i Hi) as (j & src & ph & p & -> & Hj & Hp).
      exists j, src, ph, p. split; [reflexivity|]. split; [|exact Hp].
      rewrite lookup_app_l by lia. exact Hj.
    + rewrite lookup_app_r in Hi by lia.
      destruct Hchunk as [->|(src & ph & p & _ & [->|[Hp ->]])].
      * rewrite lookup_nil in Hi. discriminate.
      * destruct (i - List.length (log w))%nat as [|k]; simpl in Hi;
          [discriminate|]. rewrite lookup_nil in Hi. discriminate.
      * destruct (i - List.length (log w))%nat as [|[|k]] eqn:Ek; simpl in Hi;
          [discriminate| |rewrite lookup_nil in Hi; discriminate].
        exists (List.length (log w)), src, ph, p.
        split; [lia|]. split; [|exact Hp].
        rewrite lookup_app_r by lia. now rewrite Nat.sub_diag.
Qed.

Lemma completion_follows_full_progress_witness :
  exists w, session session_completed_twice = Some w
            /\ completions (log w) = 2%nat
            /\ complete_after_full (log w).
Proof.
  assert (E : exists w, session session_completed_twice = Some w
                        /\ completions (log w) = 2%nat)
    by (eexists; split; vm_compute; reflexivity).
  destruct E as (w & Hw & Hn). exists w. split; [exact Hw|]. split; [exact Hn|].
  apply (completion_follows_full_progress all_callbacks w); [reflexivity|].
  exists session_completed_twice. exact Hw.
Defined.

(** *** The tracker after the end of the analysis *)

Lemma stopTracking_stopped t l :
  isTracking (fst (stopTracking t l)) = false
  /\ intervalId (fst (stopTracking t l)) = None.
Proof.
  unfold stopTracking. simpl. destruct (intervalId t); simpl; auto.
Qed.

Lemma dispatch_all_tracker calls w :
  (calls = [] \/ exists c, calls = [c]) ->
  progressTracker (fold_left (fun acc c => dispatch c acc) calls w)
  = progressTracker w
  /\ pending (fold_left (fun acc c => dispatch c acc) calls w) = pending w.
Proof.
  intros [->|[c ->]]; simpl; [auto|].
  destruct (dispatch_calls c w) as (_ & Ht & Hp & _). auto.
Qed.

Lemma resume_calls_short r t l :
  snd (fetchProgress_resume r t l) = []
  \/ exists c, snd (fetchProgress_resume r t l) = [c].
Proof.
  destruct (resume_calls r t l) as [c [H|H]]; [now left|right; now exists c].
Qed.

(** A turn changes the tracker only by stopping it. *)
Lemma step_tracker ev w w' :
  step ev w = Some w' ->
  (pending w' <= S (pending w))%nat
  /\ forall t', progressTracker w' = Some t' ->
       exists t, progressTracker w = Some t
         /\ (t' = t \/ (isTracking t' = false /\ intervalId t' = None))
         /\ (isTracking t = false -> (pending w' <= pending w)%nat).
Proof.
  unfold step. destruct ev as [h u|r].
  - destruct (is_random u); [|discriminate].
    destruct (timers (loop w) !! h) as [tm|]; [|discriminate].
    intros [= <-].
    set (w1 := if repeats tm then w else set_loop _ w).
    assert (E1 : progressTracker w1 = progressTracker w /\ pending w1 = pending w)
      by (unfold w1; destruct (repeats tm); split; reflexivity).
    destruct E1 as [Et Ep]. rewrite <- Et, <- Ep. clearbody w1.
    destruct (callback tm) as [|cp ph|]; cbn [run_callback].
    + unfold pollerTick. destruct (progressTracker w1) as [t|] eqn:E;
        [|split; [lia|intros t' Ht'; rewrite E in Ht'; discriminate]].
      unfold fetchProgress_sends.
      destruct (isTracking t) eqn:Ei; simpl; (split; [lia|]);
        intros t' Ht'; rewrite ?E in Ht'; injection Ht' as <-;
        exists t; (split; [reflexivity|]); (split; [now left|]);
        intros Hf; [congruence|lia].
    + destruct (fallbackTick_calls h cp ph u w1) as (_ & -> & -> & _).
      split; [lia|]. intros t' Ht'. exists t'. split; [exact Ht'|].
      split; [now left|lia].
    + unfold autoFallback. rewrite orb_negb_l.
      destruct (fields_startFallbackProgress w1) as (_ & -> & _ & _ & -> & _).
      split; [lia|]. intros t' Ht'. exists t'. split; [exact Ht'|].
      split; [now left|lia].
  - destruct (pending w) as [|n]; [discriminate|].
    destruct (progressTracker w) as [t|]; [|discriminate].
    assert (Hcalls := resume_calls_short r t (loop w)).
    assert (Ht : fst (fst (fetchProgress_resume r t (loop w))) = t
                 \/ (isTracking (fst (fst (fetchProgress_resume r t (loop w)))) = false
                     /\ intervalId (fst (fst (fetchProgress_resume r t (loop w)))) = None)).
    { destruct (fetchProgress_resume_cases r t (loop w))
        as [[_ E]|[(_ & _ & E)|(pr & _ & _ & _ & E)]]; rewrite E; simpl; auto.
      destruct (100 <=? _); [right; apply stopTracking_stopped|now left]. }
    destruct (fetchProgress_resume r t (loop w)) as [[t1 l1] calls].
    simpl in Hcalls, Ht. intros [= <-].
    destruct (dispatch_all_tracker calls
                (mkWorld (cbs w) (Some t1) (fallbackInterval w) l1 n (log w))
                Hcalls) as [-> ->].
    simpl. split; [lia|]. intros t' [= <-]. exists t.
    split; [reflexivity|]. split; [|lia].
    destruct Ht as [->|Ht]; auto.
Qed.

Lemma stopped_step ev w w' :
  stopped w -> step ev w = Some w' ->
  stopped w' /\ (pending w' <= pending w)%nat.
Proof.
  intros (t & Et & Hi & Hid) Hs.
  destruct (step_tracker ev w w' Hs) as [_ Ht].
  assert (Hsome : exists t', progressTracker w' = Some t').
  { revert Hs. unfold step. destruct ev as [h u|r].
    - destruct (is_random u); [|discriminate].
      destruct (timers (loop w) !! h) as [tm|]; [|discriminate].
      intros [= <-].
      set (w1 := if repeats tm then w else set_loop _ w).
      assert (E1 : progressTracker w1 = Some t)
        by (unfold w1; destruct (repeats tm); exact Et).
      clearbody w1.
      destruct (callback tm) as [|cp ph|]; cbn [run_callback].
      + unfold pollerTick. rewrite E1.
        destruct (fetchProgress_sends t); now exists t.
      + destruct (fallbackTick_calls h cp ph u w1) as (_ & -> & _).
        now exists t.
      + unfold autoFallback. rewrite orb_negb_l.
        destruct (fields_startFallbackProgress w1) as (_ & -> & _).
        now exists t.
    - destruct (pending w) as [|n]; [discriminate|]. rewrite Et.
      assert (Hcalls := resume_calls_short r t (loop w)).
      destruct (fetchProgress_resume r t (loop w)) as [[t1 l1] calls].
      simpl in Hcalls. intros [= <-].
      destruct (dispatch_all_tracker calls
                  (mkWorld (cbs w) (Some t1) (fallbackInterval w) l1 n (log w))
                  Hcalls) as [-> _].
      now exists t1. }
  destruct Hsome as [t' Et'].
  destruct (Ht t' Et') as (t0 & Et0 & Hcase & Hpend).
  rewrite Et in Et0. injection Et0 as <-.
  split; [|now apply Hpend].
  exists t'. split; [exact Et'|].
  destruct Hcase as [->|[? ?]]; auto.
Qed.

Lemma stopped_run evs : forall w w',
  stopped w -> run evs w = Some w' ->
  stopped w' /\ (pending w' <= pending w)%nat.
Proof.
  induction evs as [|ev evs IH]; intros w w' Hst; simpl.
  - intros [= <-]. auto.
  - destruct (step ev w) as [w1|] eqn:E; [|discriminate]. intros Hrun.
    destruct (stopped_step ev w w1 Hst E) as [Hst1 Hp1].
    destruct (IH w1 w' Hst1 Hrun) as [Hst' Hp']. split; [exact Hst'|lia].
Qed.

(** X23: once a poll has reported a percentage of 100 or more, the
    tracker is stopped for the rest of the session: it has no timer, and
    it sends no request any more. *)
Theorem polling_ends_with_the_analysis c w r w1 evs w2 :
  reachable c w ->
  is_update r = true -> reports_completion r = true ->
  step (Settle r) w = Some w1 ->
  run evs w1 = Some w2 ->
  stopped w2
  /\ (forall h, ~ poller_timer w2 h)
  /\ (pending w2 <= pending w1)%nat.
Proof.
  intros Hr Hup Hdone Hs Hrun.
  assert (Hinv1 : invariant w1)
    by (apply (invariant_step (Settle r) w); [now apply (invariant_reachable c)|exact Hs]).
  assert (Hst1 : stopped w1).
  { revert Hs. unfold step.
    destruct (pending w) as [|n]; [discriminate|].
    destruct (progressTracker w) as [t|]; [|discriminate].
    assert (Hcalls := resume_calls_short r t (loop w)).
    assert (Ht : isTracking (fst (fst (fetchProgress_resume r t (loop w)))) = false
                 /\ intervalId (fst (fst (fetchProgress_resume r t (loop w)))) = None).
    { destruct (fetchProgress_resume_cases r t (loop w))
        as [[He _]|[(_ & Hu & _)|(pr & _ & _ & Hc & E)]];
        [destruct r as [|[d|]]; discriminate|congruence|].
      rewrite E. rewrite <- Hc, Hdone. apply stopTracking_stopped. }
    destruct (fetchProgress_resume r t (loop w)) as [[t1 l1] calls].
    simpl in Hcalls, Ht. intros [= <-].
    destruct (dispatch_all_tracker calls
                (mkWorld (cbs w) (Some t1) (fallbackInterval w) l1 n (log w))
                Hcalls) as [Et _].
    exists t1. now split. }
  destruct (stopped_run evs w1 w2 Hst1 Hrun) as [Hst2 Hp].
  split; [exact Hst2|]. split; [|exact Hp].
  intros h Hh.
  assert (Hinv2 := invariant_run evs w1 w2 Hinv1 Hrun).
  destruct Hinv2 as (_ & _ & (t0 & Et0 & _ & _ & Hown) & _).
  destruct Hst2 as (t & Et & _ & Hid).
  rewrite Et in Et0. injection Et0 as <-.
  specialize (Hown h _ Hh eq_refl). congruence.
Qed.

Lemma polling_ends_with_the_analysis_witness :
  exists w1 w2,
    step (Settle (reports "Finalization" 100))
         (generateReportStreamWithProgress all_callbacks) = Some w1
    /\ run after_the_end w1 = Some w2
    /\ stopped w2.
Proof.
  assert (E : exists w1 w2,
    step (Settle (reports "Finalization" 100))
         (generateReportStreamWithProgress all_callbacks) = Some w1
    /\ run after_the_end w1 = Some w2)
    by (eexists; eexists; split; vm_compute; reflexivity).
  destruct E as (w1 & w2 & H1 & H2). exists w1, w2.
  split; [exact H1|]. split; [exact H2|].
  apply (polling_ends_with_the_analysis all_callbacks
           (generateReportStreamWithProgress all_callbacks)
           (reports "Finalization" 100) w1 after_the_end w2);
    [now exists []|reflexivity|reflexivity|exact H1|exact H2].
Defined.

(** *** Which timers stay *)

Lemma evolves_refl l : evolves l l.
Proof.
  split; [lia|]. intros h tm' H. right. exists tm'. auto.
Qed.

Lemma evolves_trans l1 l2 l3 : evolves l1 l2 -> evolves l2 l3 -> evolves l1 l3.
Proof.
  intros [Hn12 H12] [Hn23 H23]. split; [lia|].
  intros h tm3 H3.
  destruct (H23 h tm3 H3) as [[Hh Hs]|(tm2 & H2 & Hc2)]; [left; split; [lia|exact Hs]|].
  destruct (H12 h tm2 H2) as [[Hh Hs]|(tm1 & H1 & Hc1)].
  - left. split; [exact Hh|]. destruct Hc2 as [->|[_ ?]]; auto.
  - right. exists tm1. split; [exact H1|].
    destruct Hc2 as [->|[Hs2 Hs3]]; [exact Hc1|].
    destruct Hc1 as [<-|[Hs1 _]]; right; auto.
Qed.

Lemma evolves_clear h l : evolves l (clearInterval h l).
Proof.
  split; [simpl; lia|]. intros h' tm' H.
  apply lookup_clear in H as [_ H]. right. exists tm'. auto.
Qed.

Lemma evolves_save self cp ph l :
  (forall tm0, timers l !! self = Some tm0 -> is_simulator tm0 = true) ->
  evolves l (save self (FallbackTick cp ph) l).
Proof.
  intros Hself. split; [simpl; lia|]. intros h' tm' H.
  apply lookup_save in H as [[-> (tm0 & H0 & ->)]|[_ H]]; right.
  - exists tm0. split; [exact H0|]. right. split; [now apply Hself|reflexivity].
  - exists tm'. auto.
Qed.

Lemma evolves_schedule tm0 l :
  is_simulator tm0 = true -> evolves l (snd (schedule tm0 l)).
Proof.
  intros Hs. split; [simpl; lia|]. intros h' tm' H.
  apply lookup_schedule in H as [[-> ->]|[_ H]].
  - left. split; [lia|exact Hs].
  - right. exists tm'. auto.
Qed.

Lemma evolves_clear_fallback w : evolves (loop w) (loop (clear_fallback w)).
Proof.
  unfold clear_fallback. destruct (fallbackInterval w); simpl;
    [apply evolves_clear|apply evolves_refl].
Qed.

Lemma evolves_fallbackTick self cp ph u w :
  (forall tm0, timers (loop w) !! self = Some tm0 -> is_simulator tm0 = true) ->
  evolves (loop w) (loop (fallbackTick self cp ph u w)).
Proof.
  intros Hself.
  destruct (fallbackTick_cases self cp ph u w)
    as [E|(cp' & ph' & lg & _ & [E|E])]; rewrite E.
  - apply evolves_clear_fallback.
  - simpl. now apply evolves_save.
  - set (w2 := mkWorld _ _ _ _ _ _).
    assert (H2 : evolves (loop w) (loop (clear_fallback w2))).
    { apply (evolves_trans _ (loop w2)); [|apply evolves_clear_fallback].
      simpl. now apply evolves_save. }
    destruct (onComplete (cbs w)); exact H2.
Qed.

Lemma evolves_dispatch c w : evolves (loop w) (loop (dispatch c w)).
Proof.
  destruct c as [u|]; cbn [dispatch].
  - destruct (progressCallback_loop u w) as [-> _]. apply evolves_refl.
  - unfold Coordinator.errorCallback.
    destruct (fields_startFallbackProgress w) as (_ & _ & _ & -> & _).
    now apply evolves_schedule.
Qed.

Lemma resume_loop r t l :
  snd (fst (fetchProgress_resume r t l)) = l
  \/ (exists h, intervalId t = Some h
                /\ snd (fst (fetchProgress_resume r t l)) = clearInterval h l).
Proof.
  destruct (fetchProgress_resume_cases r t l)
    as [[_ E]|[(_ & _ & E)|(pr & _ & _ & _ & E)]]; rewrite E; simpl; auto.
  destruct (100 <=? _); [|now left].
  unfold stopTracking. simpl. destruct (intervalId t) as [h|]; simpl;
    [right; now exists h|now left].
Qed.

(** Every turn of the event loop lets the timers evolve. *)
Lemma step_evolves ev w w' :
  step ev w = Some w' -> evolves (loop w) (loop w').
Proof.
  unfold step. destruct ev as [h u|r].
  - destruct (is_random u); [|discriminate].
    destruct (timers (loop w) !! h) as [tm|] eqn:Htm; [|discriminate].
    intros [= <-].
    destruct tm as [cb rep]. cbn [callback repeats].
    set (w1 := if rep then w else set_loop _ w).
    assert (H1 : evolves (loop w) (loop w1))
      by (unfold w1; destruct rep; [apply evolves_refl|apply evolves_clear]).
    assert (Hself : forall tm0, timers (loop w1) !! h = Some tm0 ->
                                tm0 = mkTimer cb rep).
    { unfold w1. destruct rep; simpl; intros tm0 H0.
      - rewrite Htm in H0. now injection H0 as <-.
      - rewrite lookup_delete_eq in H0. discriminate. }
    clearbody w1.
    apply (evolves_trans _ (loop w1)); [exact H1|].
    destruct cb as [|cp ph|]; cbn [run_callback].
    + unfold pollerTick. destruct (progressTracker w1) as [t|];
        [destruct (fetchProgress_sends t)|]; apply evolves_refl.
    + apply evolves_fallbackTick. intros tm0 H0.
      now rewrite (Hself tm0 H0).
    + unfold autoFallback. rewrite orb_negb_l.
      destruct (fields_startFallbackProgress w1) as (_ & _ & _ & -> & _).
      now apply evolves_schedule.
  - destruct (pending w) as [|n]; [discriminate|].
    destruct (progressTracker w) as [t|]; [|discriminate].
    assert (Hcalls := resume_calls_short r t (loop w)).
    assert (Hl := resume_loop r t (loop w)).
    destruct (fetchProgress_resume r t (loop w)) as [[t1 l1] calls].
    simpl in Hcalls, Hl. intros [= <-].
    assert (H1 : evolves (loop w) l1).
    { destruct Hl as [->|(h & _ & ->)]; [apply evolves_refl|apply evolves_clear]. }
    apply (evolves_trans _ l1); [exact H1|].
    destruct Hcalls as [->|[c ->]]; simpl; [apply evolves_refl|].
    apply (evolves_dispatch c (mkWorld (cbs w) (Some t1) (fallbackInterval w)
                                 l1 n (log w))).
Qed.

Lemma owned_start c : poller_owned (generateReportStreamWithProgress c).
Proof.
  rewrite start_world. intros t h [= <-] [= <-]. simpl.
  split; [lia|]. intros tm H.
  rewrite lookup_insert_ne in H by discriminate.
  rewrite lookup_insert_eq in H. now injection H as <-.
Qed.

Lemma owned_step ev w w' :
  poller_owned w -> step ev w = Some w' -> poller_owned w'.
Proof.
  intros Hown Hs t' h Et' Hid.
  destruct (step_evolves ev w w' Hs) as [Hn Hback].
  destruct (step_tracker ev w w' Hs) as [_ Ht].
  destruct (Ht t' Et') as (t & Et & [->|[_ Hnone]] & _); [|congruence].
  destruct (Hown t h Et Hid) as [Hlt Hpoll].
  split; [lia|]. intros tm' H'.
  destruct (Hback h tm' H') as [[Hge _]|(tm & Htm & [->|[Hsim _]])].
  - lia.
  - now apply Hpoll.
  - apply Hpoll in Htm. unfold is_simulator in Hsim. rewrite Htm in Hsim.
    discriminate.
Qed.

Lemma owned_reachable c w : reachable c w -> poller_owned w.
Proof.
  apply reachable_ind; [apply owned_start|].
  intros ev w0 w' _. apply owned_step.
Qed.

Lemma orphan_ext w w' h :
  loop w' = loop w -> fallbackInterval w' = fallbackInterval w ->
  orphan w h -> orphan w' h.
Proof.
  unfold orphan, simulator_timer. intros -> ->. auto.
Qed.

Lemma orphan_clear h0 w h :
  h0 <> h -> orphan w h -> orphan (set_loop (clearInterval h0 (loop w)) w) h.
Proof.
  intros Hne [(cp & ph & H) Hf]. split; [|exact Hf].
  exists cp, ph. simpl. now rewrite lookup_delete_ne.
Qed.

Lemma orphan_clear_fallback w h : orphan w h -> orphan (clear_fallback w) h.
Proof.
  intros Ho. unfold clear_fallback.
  destruct (fallbackInterval w) as [hf|] eqn:E; [|exact Ho].
  apply orphan_clear; [|exact Ho]. destruct Ho as [_ Hf]. congruence.
Qed.

Lemma orphan_save self cp ph lg w h :
  orphan w h ->
  orphan (mkWorld (cbs w) (progressTracker w) (fallbackInterval w)
                  (save self (FallbackTick cp ph) (loop w)) (pending w) lg) h.
Proof.
  intros [(cp0 & ph0 & H) Hf]. split; [|exact Hf].
  unfold simulator_timer. simpl.
  destruct (decide (h = self)) as [->|Hne].
  - exists cp, ph. rewrite lookup_alter_eq, H. reflexivity.
  - exists cp0, ph0. now rewrite lookup_alter_ne.
Qed.

Lemma orphan_startFallbackProgress w h :
  fresh (loop w) -> orphan w h -> orphan (startFallbackProgress w) h.
Proof.
  intros Hfresh [(cp & ph & H) _].
  assert (Hlt : (h < next_handle (loop w))%positive)
    by (apply Hfresh; eexists; exact H).
  destruct (fields_startFallbackProgress w) as (_ & _ & Ef & El & _).
  split.
  - exists cp, ph. rewrite El. simpl.
    rewrite lookup_insert_ne by lia. exact H.
  - rewrite Ef. intros [= E]. lia.
Qed.

Lemma orphan_fallbackTick self cp ph u w h :
  orphan w h -> orphan (fallbackTick self cp ph u w) h.
Proof.
  intros Ho.
  destruct (fallbackTick_cases self cp ph u w)
    as [E|(cp' & ph' & lg & _ & [E|E])]; rewrite E.
  - now apply orphan_clear_fallback.
  - now apply orphan_save.
  - assert (H2 := orphan_clear_fallback _ h (orphan_save self cp' ph' lg w h Ho)).
    destruct (onComplete (cbs w)); [|exact H2].
    revert H2. apply orphan_ext; reflexivity.
Qed.

Lemma orphan_step ev w w' h :
  invariant w -> poller_owned w -> orphan w h ->
  step ev w = Some w' -> orphan w' h.
Proof.
  intros Hinv Hown Ho. unfold step. destruct ev as [h0 u|r].
  - destruct (is_random u); [|discriminate].
    destruct (timers (loop w) !! h0) as [tm|] eqn:Htm; [|discriminate].
    intros [= <-].
    set (w1 := if repeats tm then w else set_loop _ w).
    assert (H1 : orphan w1 h /\ fresh (loop w1)).
    { unfold w1. destruct (repeats tm) eqn:Hrep;
        [split; [exact Ho|apply Hinv]|].
      split; [|apply fresh_clear, Hinv].
      apply orphan_clear; [|exact Ho].
      intros ->. destruct Ho as [(cp & ph & H) _].
      rewrite Htm in H. injection H as ->. discriminate. }
    destruct H1 as [Ho1 Hf1]. clearbody w1.
    destruct (callback tm) as [|cp ph|]; cbn [run_callback].
    + unfold pollerTick. destruct (progressTracker w1) as [t|];
        [destruct (fetchProgress_sends t)|]; exact Ho1.
    + now apply orphan_fallbackTick.
    + unfold autoFallback. rewrite orb_negb_l.
      now apply orphan_startFallbackProgress.
  - destruct (pending w) as [|n]; [discriminate|].
    destruct (progressTracker w) as [t|] eqn:Et; [|discriminate].
    assert (Hcalls := resume_calls_short r t (loop w)).
    assert (Hl := resume_loop r t (loop w)).
    destruct (fetchProgress_resume r t (loop w)) as [[t1 l1] calls].
    simpl in Hcalls, Hl. intros [= <-].
    set (w1 := mkWorld (cbs w) (Some t1) (fallbackInterval w) l1 n (log w)).
    assert (H1 : orphan w1 h /\ fresh (loop w1)).
    { destruct Hl as [->|(hp & Hid & ->)].
      - split; [|apply Hinv]. revert Ho. apply orphan_ext; reflexivity.
      - split; [|apply fresh_clear, Hinv].
        assert (Hne : hp <> h).
        { intros ->. destruct Ho as [(cp & ph & H) _].
          destruct (Hown t h Et Hid) as [_ Hpoll].
          apply Hpoll in H. discriminate. }
        generalize (orphan_clear hp w h Hne Ho).
        apply orphan_ext; reflexivity. }
    destruct H1 as [Ho1 Hf1]. clearbody w1.
    destruct Hcalls as [->|[c ->]]; simpl; [exact Ho1|].
    destruct c as [pu|]; cbn [dispatch].
    + destruct (progressCallback_loop pu w1) as [El Ef].
      revert Ho1. now apply orphan_ext.
    + now apply orphan_startFallbackProgress.
Qed.

(** X24: a simulator whose handle [fallbackInterval] no longer holds,
    because a later simulator was started, is never cleared: its timer
    stays live in every later state of the session, also after it has
    completed. *)
Theorem overwritten_simulator_is_never_cleared c w h evs w' :
  reachable c w -> orphan w h -> run evs w = Some w' -> orphan w' h.
Proof.
  intros Hr Ho.
  assert (Hinv := invariant_reachable c w Hr).
  assert (Hown := owned_reachable c w Hr).
  clear Hr. revert w Hinv Hown Ho.
  induction evs as [|ev evs IH]; intros w Hinv Hown Ho; simpl.
  - now intros [= <-].
  - destruct (step ev w) as [w1|] eqn:E; [|discriminate].
    apply IH.
    + now apply (invariant_step ev w).
    + now apply (owned_step ev w).
    + now apply (orphan_step ev w).
Qed.

Lemma overwritten_simulator_is_never_cleared_witness :
  exists w w',
    session session_two_simulators = Some w
    /\ fallbackInterval w = Some second_simulator
    /\ run first_simulator_ticks w = Some w'
    /\ completions (log w') = 1%nat
    /\ simulator_timer w' first_simulator.
Proof.
  assert (E : exists w w',
    session session_two_simulators = Some w
    /\ fallbackInterval w = Some second_simulator
    /\ run first_simulator_ticks w = Some w'
    /\ completions (log w') = 1%nat
    /\ orphan w first_simulator).
  { eexists. eexists. split; [vm_compute; reflexivity|].
    split; [reflexivity|]. split; [vm_compute; reflexivity|].
    split; [reflexivity|]. split; [|discriminate].
    eexists. eexists. vm_compute. reflexivity. }
  destruct E as (w & w' & Hw & Hf & Hrun & Hn & Ho).
  exists w, w'. split; [exact Hw|]. split; [exact Hf|].
  split; [exact Hrun|]. split; [exact Hn|].
  apply (overwritten_simulator_is_never_cleared all_callbacks w
           first_simulator first_simulator_ticks w').
  - exists session_two_simulators. exact Hw.
  - exact Ho.
  - exact Hrun.
Defined.

End SessionExtras.

(** ** The pace of the fallback simulation *)

Module PaceFacts.
Import Loop Poller Coordinator ProgressStatements Invariants SessionStatements.
Import LoopFacts LogFacts SessionFacts ResumeFacts SessionExtras.
Import Lqa.

Lemma round_inject z : Js.round (inject_Z z) = z.
Proof.
  unfold Js.round.
  assert (Hlow : z <= Qfloor (inject_Z z + (1 # 2))).
  { rewrite <- (Qfloor_Z z) at 1. apply Qfloor_resp_le. lra. }
  assert (Hup : Qfloor (inject_Z z + (1 # 2)) < z + 1).
  { rewrite Zlt_Qlt.
    apply (Qle_lt_trans _ (inject_Z z + (1 # 2))); [apply Qfloor_le|].
    rewrite inject_Z_plus. change (inject_Z 1) with 1%Q. lra. }
  lia.
Qed.

Lemma share_value : (phase_share == 50 # 3)%Q.
Proof. reflexivity. Qed.

Lemma paced_clear h l lg : paced l lg -> paced (clearInterval h l) lg.
Proof.
  intros Hp h'. destruct (Hp h') as (Hlen & Hidx & Hpace).
  split; [exact Hlen|]. split; [exact Hidx|].
  intros tm cp ph Htm. apply lookup_clear in Htm as [_ Htm]. eauto.
Qed.

Lemma paced_emit l lg c : not_simulated c -> paced l lg -> paced l (lg ++ [c]).
Proof.
  intros Hc Hp h. rewrite (simulated_other h lg c Hc). apply Hp.
Qed.

(** A new simulator has handed over nothing yet. *)
Lemma paced_schedule l lg :
  ordered l lg -> paced l lg ->
  paced (snd (schedule (mkTimer (FallbackTick 0 0) true) l)) lg.
Proof.
  intros Ho Hp h. destruct (Hp h) as (Hlen & Hidx & Hpace).
  split; [exact Hlen|]. split; [exact Hidx|].
  intros tm cp ph Htm Hcb.
  apply lookup_schedule in Htm as [[-> ->]|[_ Htm]]; [|eauto].
  simpl in Hcb. injection Hcb as <- <-.
  assert (E : simulated (next_handle l) lg = []).
  { destruct (simulated (next_handle l) lg) as [|p ps] eqn:E; [reflexivity|].
    destruct (Ho (next_handle l)) as [_ Hin].
    destruct (Hin p) as [Hlt _]; [rewrite E; constructor|lia]. }
  rewrite E. simpl. unfold pace.
  split; [discriminate|]. split; [left; split; reflexivity|].
  split; [lia|]. split; [discriminate|]. intros _. reflexivity.
Qed.

(** A run of the simulator's callback with a phase left: one more call,
    one to four points more. *)
Lemma paced_tick self cp ph u l lg tm0 phase name :
  paced l lg ->
  timers l !! self = Some tm0 -> callback tm0 = FallbackTick cp ph ->
  Phases.ANALYSIS_PHASES !! ph = Some phase ->
  is_random u = true ->
  paced (save self
           (FallbackTick (cp + (u * 3 + 1))
              (if Qle_bool (inject_Z (Z.of_nat (ph + 1)) * phase_share)
                           (cp + (u * 3 + 1))
               then S ph else ph)) l)
        (lg ++ [OnProgress (Simulated self) name
                  (Z.min (Js.round (cp + (u * 3 + 1))) 100)]).
Proof.
  intros Hp Htm0 Hcb Hph Hu h. rewrite simulated_app. simpl.
  destruct (Hp h) as (Hlen & Hidx & Hpace).
  destruct (bool_decide_reflect (self = h)) as [<-|Hne].
  2:{ rewrite app_nil_r. split; [exact Hlen|]. split; [exact Hidx|].
      intros tm cp1 ph1 Htm Hcb1.
      apply lookup_save in Htm as [[-> _]|[_ Htm]]; [contradiction|eauto]. }
  destruct (Hpace tm0 cp ph Htm0 Hcb) as (Hn & Hup & _ & Hlow & Hhigh).
  apply lookup_lt_Some in Hph. simpl in Hph.
  specialize (Hhigh Hph).
  destruct (SimulationFacts.random_bounds u Hu) as [Hu0 Hu1].
  set (n := List.length (simulated self lg)) in *.
  set (cp' := (cp + (u * 3 + 1))%Q) in *.
  assert (Ea : inject_Z (Z.of_nat (ph + 1)) == inject_Z (Z.of_nat ph) + 1)
    by (rewrite Nat.add_1_r; apply SimulationFacts.inject_succ).
  assert (Eb : inject_Z (Z.of_nat (S ph + 1)) == inject_Z (Z.of_nat ph) + 2).
  { rewrite Nat.add_1_r, !SimulationFacts.inject_succ. lra. }
  assert (Ha5 : (inject_Z (Z.of_nat ph) <= 5)%Q).
  { change 5%Q with (inject_Z 5). rewrite <- Zle_Qle. lia. }
  assert (En : inject_Z (Z.of_nat (S n)) == inject_Z (Z.of_nat n) + 1)
    by apply SimulationFacts.inject_succ.
  assert (E4 : inject_Z (4 * Z.of_nat (S n)) == 4 * inject_Z (Z.of_nat n) + 4).
  { rewrite inject_Z_mult, En. change (inject_Z 4) with 4%Q. lra. }
  assert (E4n : inject_Z (4 * Z.of_nat n) == 4 * inject_Z (Z.of_nat n)).
  { rewrite inject_Z_mult. reflexivity. }
  rewrite Ea in Hhigh. rewrite share_value in Hlow, Hhigh.
  set (a := inject_Z (Z.of_nat ph)) in *.
  set (q := inject_Z (Z.of_nat n)) in *.
  assert (Hq0 : (0 <= q)%Q).
  { unfold q. change 0%Q with (inject_Z 0). rewrite <- Zle_Qle. lia. }
  assert (Hgrow : (q + 1 <= cp')%Q) by (unfold cp'; lra).
  assert (Hcap : (cp' < 4 * q + 4)%Q).
  { unfold cp'. destruct Hup as [[_ E0]|Hlt]; [rewrite E0|rewrite E4n in Hlt]; lra. }
  assert (Hn100 : (n < 100)%nat).
  { apply Nat2Z.inj_lt. rewrite Zlt_Qlt. fold q.
    change (inject_Z (Z.of_nat 100)) with 100%Q. lra. }
  split; [rewrite length_app; simpl; lia|].
  split.
  - intros i p Hi.
    destruct (decide (i < n)%nat) as [Hlt|Hge].
    + rewrite lookup_app_l in Hi by exact Hlt. now apply Hidx.
    + rewrite lookup_app_r in Hi by (fold n; lia). fold n in Hi.
      destruct (i - n)%nat as [|k] eqn:Ek; simpl in Hi;
        [|rewrite lookup_nil in Hi; discriminate].
      injection Hi as <-. assert (i = n) by lia. subst i.
      assert (H1 : Z.of_nat (S n) <= Js.round cp').
      { rewrite <- (round_inject (Z.of_nat (S n))). apply round_le.
        rewrite En. exact Hgrow. }
      assert (H2 : Js.round cp' <= 4 * Z.of_nat (S n)).
      { rewrite <- (round_inject (4 * Z.of_nat (S n))). apply round_le.
        rewrite E4. lra. }
      lia.
  - intros tm cp1 ph1 Htm Hcb1.
    apply lookup_save in Htm as [[_ (tm1 & _ & ->)]|[Hne _]]; [|contradiction].
    simpl in Hcb1. injection Hcb1 as <- <-.
    match goal with
    | |- pace _ _ ?len => assert (Elen : len = S n)
                            by (rewrite length_app; simpl; fold n; lia)
    end.
    rewrite Elen.
    destruct (Qle_bool (inject_Z (Z.of_nat (ph + 1)) * phase_share) cp') eqn:Hq.
    + apply Qle_bool_iff in Hq.
      assert (Hq' := Hq). rewrite Ea, share_value in Hq'. fold a in Hq'.
      unfold pace.
      split; [rewrite En; exact Hgrow|].
      split; [right; rewrite E4; exact Hcap|].
      split; [lia|].
      split; [rewrite <- (Nat.add_1_r ph); exact Hq|].
      intros _. rewrite Eb, share_value. fold a. unfold cp'. lra.
    + assert (Hlt : (cp' < inject_Z (Z.of_nat (ph + 1)) * phase_share)%Q).
      { apply Qnot_le_lt. intros Hle. apply Qle_bool_iff in Hle. congruence. }
      unfold pace.
      split; [rewrite En; exact Hgrow|].
      split; [right; rewrite E4; exact Hcap|].
      split; [lia|].
      split; [rewrite share_value; fold a; unfold cp'; lra|].
      intros _. exact Hlt.
Qed.

Lemma paced_clear_fallback w :
  paced (loop w) (log w) ->
  paced (loop (clear_fallback w)) (log (clear_fallback w)).
Proof.
  unfold clear_fallback. destruct (fallbackInterval w); [|auto].
  apply paced_clear.
Qed.

Lemma paced_fallbackTick self cp ph u w tm0 :
  onProgress (cbs w) = true ->
  paced (loop w) (log w) ->
  timers (loop w) !! self = Some tm0 -> callback tm0 = FallbackTick cp ph ->
  is_random u = true ->
  paced (loop (fallbackTick self cp ph u w)) (log (fallbackTick self cp ph u w)).
Proof.
  intros Hon Hp Htm0 Hcb Hu. unfold fallbackTick, emit_progress. rewrite Hon.
  destruct (Phases.ANALYSIS_PHASES !! ph) as [phase|] eqn:Hph;
    [|now apply paced_clear_fallback].
  match goal with
  | |- paced (loop (if _ then _ else ?w2)) _ =>
      assert (H2 : paced (loop w2) (log w2))
  end.
  { cbn [set_loop emit loop log].
    now apply (paced_tick self cp ph u (loop w) (log w) tm0 phase). }
  destruct (_ || _); [|exact H2].
  apply paced_clear_fallback in H2.
  destruct (onComplete _); [|exact H2].
  cbn [emit loop log]. now apply paced_emit.
Qed.

Lemma paced_progressCallback u w :
  paced (loop w) (log w) ->
  paced (loop (Coordinator.progressCallback u w))
        (log (Coordinator.progressCallback u w)).
Proof.
  intros H. unfold Coordinator.progressCallback, emit_progress.
  assert (H1 : let w1 := if onProgress (cbs w)
                         then emit (OnProgress Polled (step_name (phase u))
                                               (percentage u)) w
                         else w in paced (loop w1) (log w1)).
  { destruct (onProgress (cbs w)); [|exact H].
    cbn [emit loop log]. now apply paced_emit. }
  destruct (_ && _); [|exact H1].
  cbn [emit loop log]. now apply paced_emit.
Qed.

Lemma paced_startFallbackProgress w :
  ordered (loop w) (log w) -> paced (loop w) (log w) ->
  paced (loop (startFallbackProgress w)) (log (startFallbackProgress w)).
Proof.
  intros Ho Hp.
  destruct (fields_startFallbackProgress w) as (_ & _ & _ & -> & _ & ->).
  now apply paced_schedule.
Qed.

Lemma paced_step ev w w' :
  invariant w -> onProgress (cbs w) = true ->
  paced (loop w) (log w) -> step ev w = Some w' ->
  paced (loop w') (log w').
Proof.
  intros Hinv Hon Hp. unfold step. destruct ev as [h u|r].
  - destruct (is_random u) eqn:Hu; [|discriminate].
    destruct (timers (loop w) !! h) as [tm|] eqn:Htm; [|discriminate].
    intros [= <-].
    assert (Hshape := proj1 (proj2 Hinv) h tm Htm).
    destruct tm as [cb rep]. simpl in Hshape.
    destruct cb as [|cp ph|]; subst rep; cbn [repeats callback run_callback].
    + unfold pollerTick. destruct (progressTracker w) as [t|];
        [destruct (fetchProgress_sends t)|]; exact Hp.
    + now apply (paced_fallbackTick h cp ph u w (mkTimer (FallbackTick cp ph) true)).
    + unfold autoFallback. rewrite orb_negb_l.
      apply paced_startFallbackProgress; cbn [set_loop loop log].
      * apply ordered_clear, Hinv.
      * now apply paced_clear.
  - destruct (pending w) as [|n]; [discriminate|].
    destruct (progressTracker w) as [t|] eqn:Et; [|discriminate].
    assert (Hcalls := resume_calls_short r t (loop w)).
    assert (Hl := resume_loop r t (loop w)).
    destruct (fetchProgress_resume r t (loop w)) as [[t1 l1] calls].
    simpl in Hcalls, Hl. intros [= <-].
    assert (H1 : ordered l1 (log w) /\ paced l1 (log w)).
    { destruct Hl as [->|(hp & _ & ->)].
      - split; [apply Hinv|exact Hp].
      - split; [apply ordered_clear, Hinv|now apply paced_clear]. }
    destruct H1 as [Ho1 Hp1].
    destruct Hcalls as [->|[c ->]]; simpl; [exact Hp1|].
    destruct c as [pu|]; cbn [dispatch].
    + now apply paced_progressCallback.
    + now apply paced_startFallbackProgress.
Qed.

Lemma paced_start c : paced (loop (generateReportStreamWithProgress c))
                            (log (generateReportStreamWithProgress c)).
Proof.
  rewrite start_world. cbn [loop log]. intros h.
  assert (E : simulated h (if onProgress c
                           then [OnProgress Connected "initialization" 0]
                           else []) = [])
    by (destruct (onProgress c); reflexivity).
  rewrite E. split; [simpl; lia|].
  split; [intros i p H; rewrite lookup_nil in H; discriminate|].
  intros tm cp ph Htm Hcb.
  apply lookup_schedule in Htm as [[_ ->]|[_ Htm]]; [discriminate|].
  apply lookup_schedule in Htm as [[_ ->]|[_ Htm]]; [discriminate|].
  simpl in Htm. rewrite lookup_empty in Htm. discriminate.
Qed.

Lemma paced_reachable c w :
  onProgress c = true -> reachable c w -> paced (loop w) (log w).
Proof.
  intros Hon. revert w. apply reachable_ind; [apply paced_start|].
  intros ev w w' Hr Hp Hs.
  apply (paced_step ev w w'); auto.
  - now apply (invariant_reachable c).
  - now rewrite (cbs_reachable c w Hr).
Qed.

(** X25: when [onProgress] is passed, a fallback simulation calls it at
    most 100 times, and the percentage of its n-th call lies between n
    and 4 n: the bar moves by one to four points per tick of two
    seconds. *)
Theorem simulator_keeps_its_pace c w h :
  onProgress c = true -> reachable c w ->
  (List.length (simulated h (log w)) <= 100)%nat
  /\ forall i p, simulated h (log w) !! i = Some p ->
        Z.of_nat (S i) <= p <= 4 * Z.of_nat (S i).
Proof.
  intros Hon Hr.
  destruct (paced_reachable c w Hon Hr h) as (Hlen & Hidx & _). auto.
Qed.

Lemma simulator_keeps_its_pace_witness :
  exists w, session session_simulated = Some w
            /\ simulated first_simulator (log w) !! 9%nat = Some 35
            /\ (List.length (simulated first_simulator (log w)) <= 100)%nat.
Proof.
  assert (E : exists w, session session_simulated = Some w
            /\ simulated first_simulator (log w) !! 9%nat = Some 35)
    by (eexists; split; vm_compute; reflexivity).
  destruct E as (w & Hw & H9). exists w. split; [exact Hw|]. split; [exact H9|].
  apply (simulator_keeps_its_pace all_callbacks w first_simulator);
    [reflexivity|]. exists session_simulated. exact Hw.
Defined.

(** X26: when [onProgress] is passed, the tick in which a fallback
    simulation calls [onComplete] is no earlier than its 26th and no later
    than its 100th: between 52 and 200 seconds after the simulation was
    started. *)
Theorem simulator_completes_between_26_and_100_ticks c w h u w' :
  onProgress c = true -> reachable c w ->
  simulator_timer w h ->
  step (Fire h u) w = Some w' ->
  (completions (log w) < completions (log w'))%nat ->
  (26 <= List.length (simulated h (log w')) <= 100)%nat.
Proof.
  intros Hon Hr (cp & ph & Htm) Hs Hmore.
  assert (Hp := paced_reachable c w Hon Hr).
  assert (Hp' : paced (loop w') (log w')).
  { apply (paced_step (Fire h u) w w'); auto.
    - now apply (invariant_reachable c).
    - now rewrite (cbs_reachable c w Hr). }
  split; [|apply Hp'].
  destruct (Hp h) as (_ & _ & Hpace).
  destruct (Hpace _ cp ph Htm eq_refl) as (Hn & Hup & _).
  revert Hs Hmore. unfold step.
  destruct (is_random u) eqn:Hu; [|discriminate].
  rewrite Htm. cbn [repeats callback run_callback]. intros [= <-].
  unfold fallbackTick, emit_progress.
  rewrite (cbs_reachable c w Hr), Hon.
  destruct (Phases.ANALYSIS_PHASES !! ph) as [phase|] eqn:Hph.
  2:{ rewrite (proj2 (proj2 (proj2 (proj2 (fields_clear_fallback w))))). lia. }
  destruct (_ || _) eqn:Hc.
  2:{ cbn [set_loop emit log]. rewrite completions_app.
      cbv [completions List.filter is_complete List.length]. lia. }
  intros _.
  apply (completes_at_100 _ ph phase Hph) in Hc.
  destruct (SimulationFacts.random_bounds u Hu) as [Hu0 Hu1].
  rewrite cbs_clear_fallback. cbn [set_loop emit cbs].
  rewrite (cbs_reachable c w Hr).
  match goal with
  | |- (26 <= List.length (simulated h (log ?w3)))%nat =>
      assert (El : exists p name,
                log w3 = (log w ++ [OnProgress (Simulated h) name p])
                         ++ (if onComplete c then [OnComplete] else []))
  end.
  { eexists. eexists.
    destruct (onComplete c); cbn [emit log];
      rewrite (proj2 (proj2 (proj2 (proj2 (fields_clear_fallback _)))));
      cbn [set_loop emit log]; rewrite ?app_nil_r; reflexivity. }
  destruct El as (p & name & ->).
  rewrite !simulated_app. cbn [simulated].
  rewrite bool_decide_eq_true_2 by reflexivity.
  assert (Enone : simulated h (if onComplete c then [OnComplete] else []) = [])
    by (destruct (onComplete c); reflexivity).
  rewrite Enone, app_nil_r, length_app. cbn [List.length].
  set (n := List.length (simulated h (log w))) in *.
  assert (H25 : 25 <= Z.of_nat n).
  { destruct Hup as [[_ E0]|Hlt]; [rewrite E0 in Hc; lra|].
    assert (H100 : (inject_Z 100 < inject_Z (4 * Z.of_nat n + 4))%Q).
    { rewrite inject_Z_plus. change (inject_Z 100) with 100%Q.
      change (inject_Z 4) with 4%Q. lra. }
    rewrite <- Zlt_Qlt in H100. lia. }
  lia.
Qed.

Lemma simulator_completes_between_26_and_100_ticks_witness :
  exists w w',
    session (session_without_answer ++ repeat (Fire first_simulator (5 # 6)) 28)
    = Some w
    /\ step (Fire first_simulator (5 # 6)) w = Some w'
    /\ completions (log w') = 1%nat
    /\ (26 <= List.length (simulated first_simulator (log w')) <= 100)%nat.
Proof.
  assert (E : exists w w',
    session (session_without_answer ++ repeat (Fire first_simulator (5 # 6)) 28)
    = Some w
    /\ step (Fire first_simulator (5 # 6)) w = Some w'
    /\ completions (log w') = 1%nat
    /\ simulator_timer w first_simulator
    /\ (completions (log w) < completions (log w'))%nat).
  { eexists. eexists. split; [vm_compute; reflexivity|].
    split; [vm_compute; reflexivity|]. split; [reflexivity|].
    split; [eexists; eexists; vm_compute; reflexivity|].
    vm_compute. lia. }
  destruct E as (w & w' & Hw & Hs & Hone & Htm & Hmore).
  exists w, w'. split; [exact Hw|]. split; [exact Hs|]. split; [exact Hone|].
  exact (simulator_completes_between_26_and_100_ticks all_callbacks w
           first_simulator (5 # 6) w' eq_refl (ex_intro _ _ Hw) Htm Hs Hmore).
Defined.

End PaceFacts.
